(** * Verification of the chat server's socket handlers

    Two implementations of the server live in the repository:
    - [server/controllers/socketHandlers.js]: in-memory stores
      ([users], [socketsByUser], [messages], [typingUsers], [rooms]);
      embedded in [Module SocketHandlers];
    - [server/server.js]: messages persisted through a Mongoose model;
      embedded in [Module Server].

    Handlers are embedded as state transformers that also return the
    list of externally visible actions they perform, in program order. *)

From stdpp Require Import gmap strings list fin_maps sorting.
From Stdlib Require Import ZArith Lia.

Open Scope string_scope.
Open Scope list_scope.
Open Scope Z_scope.

(** ** JavaScript values *)

(** A payload field that may be [undefined]/[null] is an [option string].
    [truthy] is JavaScript's truthiness on such a field: [undefined],
    [null] and the empty string are falsy. *)
Definition truthy (o : option string) : bool :=
  match o with
  | Some s => bool_decide (s ≠ EmptyString)
  | None => false
  end.

(** [o || d] with a string default. *)
Definition or_else (o : option string) (d : string) : string :=
  if truthy o then default d o else d.

(** [o || null]. *)
Definition or_null (o : option string) : option string :=
  if truthy o then o else None.

(** A destructuring default [x = d]: taken only when the field is absent. *)
Definition param_default {A} (o : option A) (d : A) : A := default d o.

(** [Array.prototype.slice(start, end)] on integer arguments; a negative
    index counts from the end, and both are clamped to the array. *)
Definition js_rel_index (len k : Z) : Z :=
  if k <? 0 then Z.max (len + k) 0 else Z.min k len.

Definition js_slice {A} (l : list A) (start : Z) (end_ : option Z) : list A :=
  let len := Z.of_nat (length l) in
  let from := js_rel_index len start in
  let to := match end_ with Some e => js_rel_index len e | None => len end in
  take (Z.to_nat (to - from)) (drop (Z.to_nat from) l).

(** [Array.prototype.findIndex]: the first index satisfying [p], or -1. *)
Fixpoint js_findIndex {A} (p : A → bool) (l : list A) : Z :=
  match l with
  | [] => -1
  | x :: l' => if p x then 0 else
               let i := js_findIndex p l' in if i <? 0 then -1 else i + 1
  end.

(** [Array.prototype.find]: the first element satisfying [p]. *)
Fixpoint js_find {A} (p : A → bool) (l : list A) : option A :=
  match l with
  | [] => None
  | x :: l' => if p x then Some x else js_find p l'
  end.

(** In-place mutation of the object returned by [find]: the first element
    satisfying [p] is replaced by [f] of it. *)
Fixpoint js_mutate_found {A} (p : A → bool) (f : A → A) (l : list A) : list A :=
  match l with
  | [] => []
  | x :: l' => if p x then f x :: l' else x :: js_mutate_found p f l'
  end.

(** [Array.prototype.indexOf] on an array of strings. *)
Fixpoint js_indexOf (x : string) (l : list string) : option nat :=
  match l with
  | [] => None
  | y :: l' => if bool_decide (y = x) then Some 0%nat else S <$> js_indexOf x l'
  end.

(** [arr.includes(x) ? arr : arr.push(x)]. *)
Definition push_if_absent (x : string) (l : list string) : list string :=
  if bool_decide (x ∈ l) then l else l ++ [x].

(** A [Set] of strings, as its values in insertion order: [add] appends
    a value that is not in it, [delete] removes it, and iteration
    ([for ... of], [forEach], spread) follows the order.  A Set holds no
    value twice; [elements] of a list without duplicates is the list
    itself. *)
Definition JsSet := list string.

#[global] Instance js_set_empty : Empty JsSet := [].
#[global] Instance js_set_elements : Elements string JsSet := remove_dups.

Definition js_set_add (x : string) (s : JsSet) : JsSet :=
  if bool_decide (x ∈ s) then s else s ++ [x].

Definition js_set_delete (x : string) (s : JsSet) : JsSet :=
  filter (λ y, y ≠ x) s.

(** A plain object used as a dictionary whose enumeration order matters
    ([Object.values], [for ... in]): entries in insertion order.  Its keys
    are connection ids, the 20-character ids socket.io generates: they are
    neither array indices, so enumeration order is insertion order, nor
    property names of [Object.prototype]. *)
Module JsObj.
Section obj.
Context {V : Type}.

Fixpoint get (k : string) (o : list (string * V)) : option V :=
      match o with
      | [] => None
      | (k', v) :: o' => if bool_decide (k' = k) then Some v else get k o'
      end.

    (** [o[k] = v]: an existing key keeps its position. *)
Fixpoint set (k : string) (v : V) (o : list (string * V)) : list (string * V) :=
      match o with
      | [] => [(k, v)]
      | (k', v') :: o' =>
          if bool_decide (k' = k) then (k, v) :: o' else (k', v') :: set k v o'
      end.

    (** [delete o[k]]. *)
Fixpoint delete (k : string) (o : list (string * V)) : list (string * V) :=
      match o with
      | [] => []
      | (k', v') :: o' =>
          if bool_decide (k' = k) then delete k o' else (k', v') :: delete k o'
      end.

    (** [Object.values(o)]. *)
Definition values (o : list (string * V)) : list V := o.*2.
End obj.
End JsObj.

(** The stores [socketsByUser], [rooms] and [reactions] are plain objects
    read with names chosen by clients.  On a property name of
    [Object.prototype] such a read yields the inherited value, which is
    truthy and is neither a Set nor an array: the [x[k] || new Set()]
    idiom keeps it, and the method call or iteration that follows throws a
    [TypeError].  The assignment [x[k] = x[k] || ...] before it stores the
    inherited function under [k] as an own key of [x] (except for
    [__proto__], an accessor: assigning to it creates no key).  In
    [socketsByUser] and [reactions] that key is never seen again: no
    statement enumerates them, a read of [x[k]] yields the function
    whether it is own or inherited, and a function is left out of what is
    written to a connection; these two stores hold their Set- and
    array-valued keys only.  [rooms] is enumerated by the [disconnect]
    listener, so there the key is kept. *)
Definition inherited_key (k : string) : bool :=
  bool_decide (k ∈ ["constructor"; "__defineGetter__"; "__defineSetter__";
                    "hasOwnProperty"; "__lookupGetter__"; "__lookupSetter__";
                    "isPrototypeOf"; "propertyIsEnumerable"; "toString";
                    "valueOf"; "__proto__"; "toLocaleString"]).

Arguments inherited_key : simpl never.

(** ** Enumeration order of own keys

    [Object.values] lists the keys that are array indices first, in
    ascending numeric order, and then the other keys in the order they
    were created.  An array index is the canonical decimal numeral of an
    integer below 2^32 - 1. *)
Definition digit (a : Ascii.ascii) : option N :=
  let n := Ascii.N_of_ascii a in
  if ((48 <=? n) && (n <=? 57))%N then Some (n - 48)%N else None.

Fixpoint digits (s : string) (acc : N) : option N :=
  match s with
  | EmptyString => Some acc
  | String a s' =>
      match digit a with
      | Some d => digits s' (10 * acc + d)%N
      | None => None
      end
  end.

Definition array_index (k : string) : option N :=
  match k with
  | EmptyString => None
  | String a EmptyString => digit a
  | String a _ =>
      if (Ascii.N_of_ascii a =? 48)%N then None else
      match digits k 0%N with
      | Some n => if (n <? 4294967295)%N then Some n else None
      | None => None
      end
  end.

Definition index_le (k1 k2 : string) : Prop :=
  (default 0 (array_index k1) ≤ default 0 (array_index k2))%N.

#[global] Instance index_le_dec : RelDecision index_le :=
  λ k1 k2, N.le_dec (default 0%N (array_index k1)) (default 0%N (array_index k2)).

Definition js_own_keys {V} (o : list (string * V)) : list string :=
  merge_sort index_le (filter (λ k, is_Some (array_index k)) o.*1) ++
  filter (λ k, array_index k = None) o.*1.

(** ** The socket.io server object

    socket.io keeps, per namespace, the connected sockets and a map from
    room name to the sockets that joined it; a socket joins the room named
    by its own id when it connects and leaves every room when it
    disconnects (before the [disconnect] listeners run). *)
Record Adapter := mkAdapter {
  sio_sids : gset string;
  sio_rooms : gmap string (gset string)
}.

Definition sio_members (r : string) (a : Adapter) : gset string :=
  default ∅ (sio_rooms a !! r).

Definition sio_join (sid r : string) (a : Adapter) : Adapter :=
  mkAdapter (sio_sids a) (<[r := {[sid]} ∪ sio_members r a]> (sio_rooms a)).

Definition sio_leave (sid r : string) (a : Adapter) : Adapter :=
  mkAdapter (sio_sids a) (alter (λ s, s ∖ {[sid]}) r (sio_rooms a)).

Definition sio_connect (sid : string) (a : Adapter) : Adapter :=
  sio_join sid sid (mkAdapter ({[sid]} ∪ sio_sids a) (sio_rooms a)).

Definition sio_disconnect (sid : string) (a : Adapter) : Adapter :=
  mkAdapter (sio_sids a ∖ {[sid]}) ((λ s, s ∖ {[sid]}) <$> sio_rooms a).

(** ** Handlers as commands

    A handler body is a command: it transforms the stores and appends to
    the trace of actions it performs, in program order. *)
Section Commands.
Context {St Act : Type}.

Definition Cmd := St → St * list Act.

Definition skip : Cmd := λ st, (st, []).
Definition seq (c1 c2 : Cmd) : Cmd :=
  λ st, let '(st1, t1) := c1 st in
        let '(st2, t2) := c2 st1 in (st2, t1 ++ t2).
Definition reading (k : St → Cmd) : Cmd := λ st, k st st.
Definition modify (f : St → St) : Cmd := λ st, (f st, []).
Definition tell (a : Act) : Cmd := λ st, (st, [a]).
Definition when (b : bool) (c : Cmd) : Cmd := if b then c else skip.
Definition for_each {A} (l : list A) (body : A → Cmd) : Cmd :=
  foldr (λ x k, seq (body x) k) skip l.
End Commands.

Arguments Cmd : clear implicits.

Notation "c1 ;; c2" := (seq c1 c2) (at level 100, c2 at level 200, right associativity).

(** ** server/controllers/socketHandlers.js *)

Module Message.
(** The object built by [createMessage]. *)
Record t := mk {
  id : string;
  text : option string;
  fileUrl : option string;
  sender : string;
  senderId : string;
  roomId : string;
  isPrivate : bool;
  toUser : option string;
  timestamp : string;
  readBy : list string;
  reactions : gmap string (list string)
}.

Definition with_readBy (r : list string) (m : t) : t :=
  mk (id m) (text m) (fileUrl m) (sender m) (senderId m) (roomId m)
     (isPrivate m) (toUser m) (timestamp m) r (reactions m).

Definition with_reactions (r : gmap string (list string)) (m : t) : t :=
  mk (id m) (text m) (fileUrl m) (sender m) (senderId m) (roomId m)
     (isPrivate m) (toUser m) (timestamp m) (readBy m) r.
End Message.

Module SocketHandlers.

Record User := mkUser { username : string; uid : string }.

(** What [Date.now() + '_' + Math.random().toString(36).slice(2,8)] and
    [toISO()] evaluate to during one call of [createMessage]. *)
Record Fresh := mkFresh { fresh_id : string; fresh_ts : string }.

Definition createMessage (fr : Fresh) (text : option string)
    (sender senderId : string) (roomId : option string)
    (isPrivate : option bool) (toUser fileUrl : option string) : Message.t :=
  {| Message.id := fresh_id fr;
     Message.text := or_null text;
     Message.fileUrl := or_null fileUrl;
     Message.sender := sender;
     Message.senderId := senderId;
     Message.roomId := param_default roomId "global";
     Message.isPrivate := param_default isPrivate false;
     Message.toUser := toUser;
     Message.timestamp := fresh_ts fr;
     Message.readBy := [];
     Message.reactions := ∅ |}.

(** The [rooms] object: room id -> Set of connection ids, with its own
    keys in creation order, since [disconnect] enumerates it.  Besides
    Sets it can hold the function [join_room] stored under a property
    name of [Object.prototype]; as no statement stores a Set under such a
    name, an own key holds the inherited function exactly when it is such
    a name.  An entry under one stands for the function (its set is not
    used), and reading [rooms] for its Sets skips it: [rs !! r] is the Set
    under [r], if there is one.  The Sets of [rooms] are added to and
    deleted from but never iterated: they are kept as finite sets. *)
Definition Rooms := list (string * gset string).

#[export] Instance rooms_lookup : Lookup string (gset string) Rooms :=
  λ r rs, if inherited_key r then None else JsObj.get r rs.

#[export] Instance rooms_insert : Insert string (gset string) Rooms :=
  λ r s rs, JsObj.set r s rs.

#[export] Instance rooms_alter : Alter string (gset string) Rooms :=
  λ f r rs,
    match rs !! r with
    | Some s => JsObj.set r (f s) rs
    | None => rs
    end.

(** [rooms[r] = rooms[r]] for a property name [r] of [Object.prototype]:
    the key is created, last, unless it exists; [__proto__] creates
    none. *)
Definition own_inherited (r : string) (rs : Rooms) : Rooms :=
  if bool_decide (r = "__proto__") || bool_decide (r ∈ rs.*1) then rs
  else rs ++ [(r, ∅)].

(** [Object.values(rooms).forEach((set) => set.delete(sid))] over the
    keys in enumeration order: on the first value that is not a Set,
    [set.delete] is not a function and the loop ends with a [TypeError],
    the Sets before it cleaned and the others not.  The flag tells whether
    the loop completed. *)
Fixpoint delete_from_each (sid : string) (keys : list string) (rs : Rooms)
    : Rooms * bool :=
  match keys with
  | [] => (rs, true)
  | k :: keys' =>
      if inherited_key k then (rs, false)
      else delete_from_each sid keys' (alter (λ s, s ∖ {[sid]}) k rs)
  end.

(** The module-level stores, and the socket.io server the handlers close
    over. *)
Record State := mkState {
  users : list (string * User);
  socketsByUser : gmap string JsSet;
  messages : list Message.t;
  typingUsers : list (string * string);
  rooms : Rooms;
  io : Adapter
}.

Definition init : State :=
  mkState [] ∅ [] [] [("global", ∅)] (mkAdapter ∅ ∅).

Definition set_users f (st : State) : State :=
  mkState (f (users st)) (socketsByUser st) (messages st) (typingUsers st) (rooms st) (io st).
Definition set_socketsByUser f (st : State) : State :=
  mkState (users st) (f (socketsByUser st)) (messages st) (typingUsers st) (rooms st) (io st).
Definition set_messages f (st : State) : State :=
  mkState (users st) (socketsByUser st) (f (messages st)) (typingUsers st) (rooms st) (io st).
Definition set_typingUsers f (st : State) : State :=
  mkState (users st) (socketsByUser st) (messages st) (f (typingUsers st)) (rooms st) (io st).
Definition set_rooms f (st : State) : State :=
  mkState (users st) (socketsByUser st) (messages st) (typingUsers st) (f (rooms st)) (io st).
Definition set_io f (st : State) : State :=
  mkState (users st) (socketsByUser st) (messages st) (typingUsers st) (rooms st) (f (io st)).

(** Event payloads. *)
Inductive Payload :=
| PMessage (m : Message.t)
| PUser (username id : string)
| PUserList (l : list User)
| PNotifJoin (username : string)
| PNotifRoomJoin (roomId socketId : string)
| PNotifMessage (roomId messageId : string)
| PNotifPrivate (messageId from : string)
| PRoom (roomId socketId : string)
| PTypingUsers (names : list string)
| PRead (messageId username : string)
| PReaction (messageId reaction username : string).

Inductive AckPayload :=
| AckError (reason : string)
| AckSent (id : string) (timestamp : option string)
| AckPage (messages : list Message.t).

(** What a handler does, in program order: [Stored m] is
    [messages.push(m)], [Dropped m] is a [messages.shift()] that removed
    [m], [Emit to ev p] is one [emit] of event [ev] resolved to the
    connections [to] it is written to, [Ack sid a] is a call of the
    acknowledgement callback of connection [sid], [Throw] is a
    [TypeError] thrown by the handler, which ends it. *)
Inductive Action :=
| Stored (m : Message.t)
| Dropped (m : Message.t)
| Emit (to : gset string) (ev : string) (p : Payload)
| Ack (sid : string) (a : AckPayload)
| Log
| Throw.

Local Abbreviation Cmd := (Cmd State Action).

(** [io.to(room).emit(ev, p)], [io.emit(ev, p)], [socket.emit(ev, p)]. *)
Definition io_to (room ev : string) (p : Payload) : Cmd :=
  reading (λ st, tell (Emit (sio_members room (io st)) ev p)).
Definition io_emit (ev : string) (p : Payload) : Cmd :=
  reading (λ st, tell (Emit (sio_sids (io st)) ev p)).
Definition socket_emit (socket ev : string) (p : Payload) : Cmd :=
  tell (Emit {[socket]} ev p).

(** [if (typeof ack === 'function') ack(a)]. *)
Definition call_ack (ack : bool) (socket : string) (a : AckPayload) : Cmd :=
  when ack (tell (Ack socket a)).

Fixpoint getUserList_from (seen : list string) (us : list (string * User)) : list User :=
  match us with
  | [] => []
  | (_, u) :: us' =>
      if bool_decide (username u ∈ seen) then getUserList_from seen us'
      else mkUser (username u) (uid u) :: getUserList_from (username u :: seen) us'
  end.

Definition getUserList (st : State) : list User := getUserList_from [] (users st).

Definition registerUser (socket username : string) : Cmd :=
  modify (set_users (JsObj.set socket (mkUser username socket))) ;;
  if inherited_key username then tell Throw else
  modify (set_socketsByUser (λ sbu,
    <[username := js_set_add socket (default ∅ (sbu !! username))]> sbu)) ;;
  modify (set_io (sio_join socket "global")) ;;
  modify (set_rooms (λ rs, <["global" := {[socket]} ∪ default ∅ (rs !! "global")]> rs)) ;;
  io_emit "user_joined" (PUser username socket) ;;
  reading (λ st, io_emit "user_list" (PUserList (getUserList st))) ;;
  io_emit "notification" (PNotifJoin username) ;;
  tell Log.

(** [handleSocketConnection]: the handshake part; [token_user] is the
    username of the verified token payload, if a token was sent and
    verified. *)
Definition on_connection (socket : string) (has_token : bool)
    (token_user : option string) : Cmd :=
  modify (set_io (sio_connect socket)) ;;
  tell Log ;;
  when has_token
    (if truthy token_user then registerUser socket (default EmptyString token_user)
     else tell Log).

Definition user_join (socket : string) (username : option string) : Cmd :=
  if truthy username then registerUser socket (default EmptyString username) else skip.

(** [join_room]: on a property name of [Object.prototype] the assignment
    [rooms[roomId] = rooms[roomId] || new Set()] stores the inherited
    function under the room id, and [rooms[roomId].add] throws. *)
Definition join_room (socket : string) (roomId : option string) : Cmd :=
  if truthy roomId then
    let r := default EmptyString roomId in
    modify (set_io (sio_join socket r)) ;;
    if inherited_key r then modify (set_rooms (own_inherited r)) ;; tell Throw else
    modify (set_rooms (λ rs, <[r := {[socket]} ∪ default ∅ (rs !! r)]> rs)) ;;
    io_to r "room_joined" (PRoom r socket) ;;
    io_emit "notification" (PNotifRoomJoin r socket) ;;
    tell Log
  else skip.

Definition leave_room (socket : string) (roomId : option string) : Cmd :=
  if truthy roomId then
    let r := default EmptyString roomId in
    modify (set_io (sio_leave socket r)) ;;
    if inherited_key r then tell Throw else
    modify (set_rooms (alter (λ s, s ∖ {[socket]}) r)) ;;
    io_to r "room_left" (PRoom r socket)
  else skip.

(** A sequence of joins and leaves of one connection on one room, and
    the membership it should result in: that of the last operation. *)
Inductive RoomOp := Join | Leave.

Definition room_op (socket roomId : string) (op : RoomOp) : Cmd :=
  match op with
  | Join => join_room socket (Some roomId)
  | Leave => leave_room socket (Some roomId)
  end.

Definition net_effect (joined : bool) (ops : list RoomOp) : bool :=
  foldl (λ _ op, match op with Join => true | Leave => false end) joined ops.

(** Membership in the [rooms] directory and in socket.io's room. *)
Definition in_room (socket roomId : string) (st : State) : bool :=
  bool_decide (socket ∈ default ∅ (rooms st !! roomId)).
Definition in_sio_room (socket roomId : string) (st : State) : bool :=
  bool_decide (socket ∈ sio_members roomId (io st)).

Record SendPayload := mkSend {
  p_text : option string;
  p_roomId : option string;
  p_fileUrl : option string
}.

(** [messages.push(msg)]. *)
Definition push_message (msg : Message.t) : Cmd :=
  modify (set_messages (λ ms, ms ++ [msg])) ;; tell (Stored msg).

(** [if (messages.length > 2000) messages.shift()]. *)
Definition cap_messages : Cmd :=
  reading (λ st,
    if 2000 <? Z.of_nat (length (messages st)) then
      match messages st with
      | old :: rest => modify (set_messages (λ _, rest)) ;; tell (Dropped old)
      | [] => skip
      end
    else skip).

Definition send_message (socket : string) (payload : SendPayload) (ack : bool)
    (fr : Fresh) : Cmd :=
  reading (λ st,
    match JsObj.get socket (users st) with
    | None => call_ack ack socket (AckError "not_authenticated")
    | Some user =>
        let msg := createMessage fr (p_text payload) (username user) socket
                     (Some (or_else (p_roomId payload) "global")) None None
                     (or_null (p_fileUrl payload)) in
        push_message msg ;;
        cap_messages ;;
        io_to (Message.roomId msg) "receive_message" (PMessage msg) ;;
        call_ack ack socket (AckSent (Message.id msg) (Some (Message.timestamp msg))) ;;
        io_emit "notification" (PNotifMessage (Message.roomId msg) (Message.id msg))
    end).

(** The loops over the connections of a user, here and in
    [message_read] and [message_reaction], follow the insertion order of
    the Set. *)
Definition private_message (socket to : string) (text fileUrl : option string)
    (ack : bool) (fr : Fresh) : Cmd :=
  reading (λ st,
    match JsObj.get socket (users st) with
    | None => call_ack ack socket (AckError "not_authenticated")
    | Some from =>
        let msg := createMessage fr text (username from) socket None
                     (Some true) (Some to) (or_null fileUrl) in
        push_message msg ;;
        if inherited_key to then tell Throw else
        let recSockets := elements (default ∅ (socketsByUser st !! to)) in
        for_each recSockets (λ sid, io_to sid "private_message" (PMessage msg)) ;;
        socket_emit socket "private_message" (PMessage msg) ;;
        call_ack ack socket (AckSent (Message.id msg) None) ;;
        for_each recSockets (λ sid,
          io_to sid "notification" (PNotifPrivate (Message.id msg) (username from)))
    end).

Definition typing (socket : string) (roomId : option string) (isTyping : bool) : Cmd :=
  reading (λ st,
    match JsObj.get socket (users st) with
    | None => skip
    | Some u =>
        modify (set_typingUsers
                  (if isTyping then JsObj.set socket (username u)
                   else JsObj.delete socket)) ;;
        reading (λ st', io_to (param_default roomId "global") "typing_users"
                          (PTypingUsers (JsObj.values (typingUsers st'))))
    end).

Definition has_id (messageId : string) (m : Message.t) : bool :=
  bool_decide (Message.id m = messageId).

(** [if (!m.readBy.includes(username)) m.readBy.push(username)]. *)
Definition mark_read (username : string) (m : Message.t) : Message.t :=
  Message.with_readBy (push_if_absent username (Message.readBy m)) m.

Definition message_read (socket messageId username : string) : Cmd :=
  reading (λ st,
    match js_find (has_id messageId) (messages st) with
    | None => skip
    | Some m0 =>
        let m := mark_read username m0 in
        modify (set_messages (js_mutate_found (has_id messageId) (mark_read username))) ;;
        if Message.isPrivate m then
          if inherited_key (Message.sender m) then tell Throw else
          for_each (elements (default ∅ (socketsByUser st !! Message.sender m)))
            (λ sid, io_to sid "message_read" (PRead messageId username))
        else
          io_to (or_else (Some (Message.roomId m)) "global") "message_read"
            (PRead messageId username)
    end).

(** The body of the [message_reaction] handler on the found message:
    [m.reactions[reaction] = m.reactions[reaction] || []], then push the
    user name if [indexOf] is -1 and [splice(idx, 1)] otherwise. *)
Definition toggle (username : string) (arr : list string) : list string :=
  match js_indexOf username arr with
  | None => arr ++ [username]
  | Some idx => delete idx arr
  end.

Definition toggle_reaction (reaction username : string) (m : Message.t) : Message.t :=
  Message.with_reactions
    (<[reaction := toggle username (default [] (Message.reactions m !! reaction))]>
       (Message.reactions m)) m.

(** User [user] has reacted with [kind] to message [m]. *)
Definition reacted (m : Message.t) (kind user : string) : Prop :=
  user ∈ default [] (Message.reactions m !! kind).

(** No user is listed twice under a reaction kind. *)
Definition reactions_wf (m : Message.t) : Prop :=
  ∀ kind, NoDup (default [] (Message.reactions m !! kind)).

(** A [null] used as a property key is the key ["null"]. *)
Definition js_key (o : option string) : string := default "null" o.

Definition message_reaction (socket messageId reaction username : string) : Cmd :=
  reading (λ st,
    match js_find (has_id messageId) (messages st) with
    | None => skip
    | Some m0 =>
        if inherited_key reaction then tell Throw else
        let m := toggle_reaction reaction username m0 in
        modify (set_messages (js_mutate_found (has_id messageId)
                                (toggle_reaction reaction username))) ;;
        if Message.isPrivate m then
          if inherited_key (js_key (Message.toUser m)) || inherited_key (Message.sender m)
          then tell Throw else
          let recSockets := elements (default ∅ (socketsByUser st !! js_key (Message.toUser m))) in
          let senderSockets := elements (default ∅ (socketsByUser st !! Message.sender m)) in
          for_each (recSockets ++ senderSockets)
            (λ sid, io_to sid "message_reaction" (PReaction messageId reaction username))
        else
          io_to (Message.roomId m) "message_reaction"
            (PReaction messageId reaction username)
    end).

(** The page computed by the [load_older] handler. *)
Definition room_history (roomId : string) (ms : list Message.t) : list Message.t :=
  filter (λ m, Message.roomId m = roomId ∧ Message.isPrivate m = false) ms.

Definition older_page (ms : list Message.t) (roomId : option string)
    (beforeId : option string) (limit : option Z) : list Message.t :=
  let roomId := param_default roomId "global" in
  let limit := param_default limit 20 in
  let list := room_history roomId ms in
  if truthy beforeId then
    let idx := js_findIndex (has_id (default EmptyString beforeId)) list in
    if idx =? -1 then js_slice list (- limit) None
    else js_slice list (Z.max 0 (idx - limit)) (Some idx)
  else js_slice list (- limit) None.

Definition load_older (socket : string) (roomId beforeId : option string)
    (limit : option Z) (ack : bool) : Cmd :=
  reading (λ st,
    call_ack ack socket (AckPage (older_page (messages st) roomId beforeId limit))).

(** The [disconnect] listener; socket.io has removed the socket from its
    rooms before it runs.  The loop over [Object.values(rooms)] throws on
    a value that is not a Set, after the session, the user's entry and
    the typing entry are removed and before anything is emitted. *)
Definition disconnect (socket : string) : Cmd :=
  modify (set_io (sio_disconnect socket)) ;;
  reading (λ st,
    match JsObj.get socket (users st) with
    | Some u =>
        let username := username u in
        if inherited_key username then tell Throw else
        modify (set_socketsByUser (alter (js_set_delete socket) username)) ;;
        modify (set_socketsByUser (λ sbu,
          if bool_decide (sbu !! username = Some ∅) then delete username sbu else sbu)) ;;
        modify (set_users (JsObj.delete socket)) ;;
        modify (set_typingUsers (JsObj.delete socket)) ;;
        reading (λ st1,
          let cleaned := delete_from_each socket (js_own_keys (rooms st1)) (rooms st1) in
          modify (set_rooms (λ _, cleaned.1)) ;;
          if cleaned.2 then
            io_emit "user_left" (PUser username socket) ;;
            reading (λ st', io_emit "user_list" (PUserList (getUserList st'))) ;;
            reading (λ st', io_emit "typing_users"
                              (PTypingUsers (JsObj.values (typingUsers st')))) ;;
            tell Log
          else tell Throw)
    | None => tell Log
    end).

(** Inbound events of one connection. *)
Inductive Event :=
| EConnection (has_token : bool) (token_user : option string)
| EUserJoin (username : option string)
| EJoinRoom (roomId : option string)
| ELeaveRoom (roomId : option string)
| ESendMessage (payload : SendPayload) (ack : bool) (fr : Fresh)
| EPrivateMessage (to : string) (text fileUrl : option string) (ack : bool) (fr : Fresh)
| ETyping (roomId : option string) (isTyping : bool)
| EMessageRead (messageId username : string)
| EMessageReaction (messageId reaction username : string)
| ELoadOlder (roomId beforeId : option string) (limit : option Z) (ack : bool)
| EDisconnect.

Definition handle (socket : string) (e : Event) : Cmd :=
  match e with
  | EConnection has_token token_user => on_connection socket has_token token_user
  | EUserJoin username => user_join socket username
  | EJoinRoom roomId => join_room socket roomId
  | ELeaveRoom roomId => leave_room socket roomId
  | ESendMessage payload ack fr => send_message socket payload ack fr
  | EPrivateMessage to text fileUrl ack fr => private_message socket to text fileUrl ack fr
  | ETyping roomId isTyping => typing socket roomId isTyping
  | EMessageRead messageId username => message_read socket messageId username
  | EMessageReaction messageId reaction username =>
      message_reaction socket messageId reaction username
  | ELoadOlder roomId beforeId limit ack => load_older socket roomId beforeId limit ack
  | EDisconnect => disconnect socket
  end.

Definition is_send (e : Event) : bool :=
  match e with ESendMessage _ _ _ => true | _ => false end.

(** A run of the server: events of several connections, one after the
    other. *)
Definition run (evs : list (string * Event)) : Cmd :=
  for_each evs (λ se, handle se.1 se.2).

(** The payloads of event [ev] written to connection [c], in order. *)
Fixpoint deliveries (c ev : string) (tr : list Action) : list Payload :=
  match tr with
  | [] => []
  | Emit to e p :: tr' =>
      if String.eqb e ev && bool_decide (c ∈ to) then p :: deliveries c ev tr'
      else deliveries c ev tr'
  | _ :: tr' => deliveries c ev tr'
  end.

(** Scanning a trace in order: every message written to a connection
    has been stored earlier in the trace ([stored] holds the messages
    stored so far). *)
Fixpoint stored_before_emit (stored : list Message.t) (tr : list Action) : Prop :=
  match tr with
  | [] => True
  | Stored m :: tr' => stored_before_emit (m :: stored) tr'
  | Emit _ _ (PMessage m) :: tr' => m ∈ stored ∧ stored_before_emit stored tr'
  | _ :: tr' => stored_before_emit stored tr'
  end.


End SocketHandlers.

(** ** server/server.js *)

Module Server.

(** [socket.user], set by the Clerk middleware. *)
Record ClerkUser := mkClerk { cu_clerkId : string; cu_username : string }.

Record User := mkUser {
  clerkId : option string;
  username : string;
  uid : string;
  room : string
}.

(** A document of the [Message] model; [meta] is kept opaque. *)
Record Doc := mkDoc {
  doc_id : string;
  message : string;
  sender : string;
  senderId : string;
  to : option string;
  doc_room : string;
  isPrivate : bool;
  meta : option string;
  timestamp : string;
  readBy : list string;
  reactions : list (string * string)
}.

Definition with_id (i : string) (d : Doc) : Doc :=
  mkDoc i (message d) (sender d) (senderId d) (to d) (doc_room d) (isPrivate d)
        (meta d) (timestamp d) (readBy d) (reactions d).

Definition with_readBy (r : list string) (d : Doc) : Doc :=
  mkDoc (doc_id d) (message d) (sender d) (senderId d) (to d) (doc_room d)
        (isPrivate d) (meta d) (timestamp d) r (reactions d).

(** The [users] map, the per-socket properties [socket.user] and
    [socket.currentRoom], the message collection behind the model, and
    the socket.io server. *)
Record State := mkState {
  users : list (string * User);
  socket_user : gmap string ClerkUser;
  currentRoom : gmap string string;
  store : list Doc;
  io : Adapter
}.

Definition set_store f (st : State) : State :=
  mkState (users st) (socket_user st) (currentRoom st) (f (store st)) (io st).

Inductive Payload :=
| PDoc (d : Doc)
| PRead (messageId userId : string).

(** [Persisted d]: a [Message.create] or [save] that the store completed
    with document [d]; [StoreFailed]: a store call that threw;
    [LogError]: the [console.error] of a [catch] block. *)
Inductive Action :=
| Persisted (d : Doc)
| StoreFailed
| Emit (to : gset string) (ev : string) (p : Payload)
| LogError.

Local Abbreviation Cmd := (Cmd State Action).

Definition io_to (room ev : string) (p : Payload) : Cmd :=
  reading (λ st, tell (Emit (sio_members room (io st)) ev p)).
Definition io_emit (ev : string) (p : Payload) : Cmd :=
  reading (λ st, tell (Emit (sio_sids (io st)) ev p)).
Definition socket_emit (socket ev : string) (p : Payload) : Cmd :=
  tell (Emit {[socket]} ev p).

(** [await Message.create(obj)]: the store either assigns an id and keeps
    the document, or throws; [outcome] is what it did. *)
Definition Message_create (obj : Doc) (outcome : option string)
    (k : Doc → Cmd) (on_error : Cmd) : Cmd :=
  match outcome with
  | Some i =>
      let saved := with_id i obj in
      modify (set_store (λ ds, ds ++ [saved])) ;; tell (Persisted saved) ;; k saved
  | None => tell StoreFailed ;; on_error
  end.

Record MsgData := mkMsgData {
  d_message : option string;
  d_room : option string;
  d_isPrivate : bool;
  d_to : option string;
  d_meta : option string
}.

(** [users[socket.id]?.username || socket.user?.username || 'Anonymous']. *)
Definition senderName (socket : string) (st : State) : string :=
  or_else (username <$> JsObj.get socket (users st))
    (or_else (cu_username <$> socket_user st !! socket) "Anonymous").

(** [socket.user?.clerkId || socket.id]. *)
Definition userId (socket : string) (st : State) : string :=
  or_else (cu_clerkId <$> socket_user st !! socket) socket.

Definition send_message (socket : string) (msgData : MsgData) (now : string)
    (outcome : option string) : Cmd :=
  reading (λ st,
    let room := or_else (currentRoom st !! socket) (or_else (d_room msgData) "global") in
    let messageObj :=
      {| doc_id := EmptyString;
         message := or_else (d_message msgData) EmptyString;
         sender := senderName socket st;
         senderId := userId socket st;
         to := or_null (d_to msgData);
         doc_room := room;
         isPrivate := d_isPrivate msgData;
         meta := d_meta msgData;
         timestamp := now;
         readBy := [];
         reactions := [] |} in
    Message_create messageObj outcome
      (λ saved, io_to room "receive_message" (PDoc saved))
      (tell LogError)).

Definition private_message (socket : string) (to message : option string)
    (now : string) (outcome : option string) : Cmd :=
  if negb (truthy to) || negb (truthy message) then skip else
  reading (λ st,
    let to := default EmptyString to in
    let msg :=
      {| doc_id := EmptyString;
         message := default EmptyString message;
         sender := senderName socket st;
         senderId := userId socket st;
         to := Some to;
         doc_room := "pm:" +:+ socket +:+ ":" +:+ to;
         isPrivate := true;
         meta := None;
         timestamp := now;
         readBy := [];
         reactions := [] |} in
    Message_create msg outcome
      (λ saved, socket_emit socket "private_message" (PDoc saved) ;;
                io_to to "private_message" (PDoc saved))
      (tell LogError)).

Definition has_id (messageId : string) (d : Doc) : bool :=
  bool_decide (doc_id d = messageId).

(** [find_ok]: whether [Message.findById] returned rather than threw;
    [save_ok]: whether [msg.save()] did. *)
Definition message_read (socket messageId : string) (find_ok save_ok : bool) : Cmd :=
  if negb find_ok then tell StoreFailed ;; tell LogError else
  reading (λ st,
    match js_find (has_id messageId) (store st) with
    | None => skip
    | Some msg =>
        let userId := userId socket st in
        if bool_decide (userId ∈ readBy msg) then skip
        else
          let msg' := with_readBy (readBy msg ++ [userId]) msg in
          if save_ok then
            modify (set_store (js_mutate_found (has_id messageId) (λ _, msg'))) ;;
            tell (Persisted msg') ;;
            io_emit "message_read" (PRead messageId userId)
          else tell StoreFailed ;; tell LogError
    end).

(** Scanning a trace in order: every document written to a connection
    has been persisted earlier in the trace. *)
Fixpoint stored_before_emit (stored : list Doc) (tr : list Action) : Prop :=
  match tr with
  | [] => True
  | Persisted d :: tr' => stored_before_emit (d :: stored) tr'
  | Emit _ _ (PDoc d) :: tr' => d ∈ stored ∧ stored_before_emit stored tr'
  | _ :: tr' => stored_before_emit stored tr'
  end.

(** The [emit]s of a trace. *)
Definition is_emit (a : Action) : bool :=
  match a with Emit _ _ _ => true | _ => false end.

Definition emits (tr : list Action) : list Action := List.filter is_emit tr.

End Server.

(** ** Concrete scenarios *)

Module Scenario.
Import SocketHandlers.

Definition connect_as (socket name : string) : list (string * Event) :=
  [(socket, EConnection false None); (socket, EUserJoin (Some name))].

(** alice on two devices, carol on two devices, bob on one. *)
Definition lobby : State :=
  (run (connect_as "s1" "alice" ++ connect_as "s2" "alice" ++
        connect_as "s3" "carol" ++ connect_as "s4" "carol" ++
        connect_as "s5" "bob") init).1.

Definition back_and_forth : list RoomOp := [Join; Join; Leave; Leave; Join].

Definition fr0 : Fresh := mkFresh "1700000000000_k3x9qa" "2023-11-14T22:13:20.000Z".
Definition fr1 : Fresh := mkFresh "1700000000500_p0m2zz" "2023-11-14T22:13:20.500Z".

Definition hi : SendPayload := mkSend (Some "hi") (Some "general") None.

(** alice and bob in room "general", a message of alice stored there. *)
Definition general : State :=
  (run [("s1", EJoinRoom (Some "general")); ("s5", EJoinRoom (Some "general"));
        ("s1", ESendMessage hi true fr0)] lobby).1.

(** bob in room "a" and typing there, alice in room "b". *)
Definition two_rooms : State :=
  (run [("s5", EJoinRoom (Some "a")); ("s1", EJoinRoom (Some "b"));
        ("s5", ETyping (Some "a") true)] lobby).1.

(** A full collection: a message of alice followed by 1999 messages of
    bob, all in room "general". *)
Definition full : State :=
  (run (("s1", ESendMessage hi true fr0) ::
        replicate 1999 ("s5", ESendMessage hi true fr1)) lobby).1.

(** For server/server.js: one guest connection in room "global". *)
Definition guest : Server.State :=
  Server.mkState [("s1", Server.mkUser None "alice" "s1" "global")] ∅ ∅ []
    (sio_join "s1" "global" (sio_connect "s1" (mkAdapter ∅ ∅))).
Definition hello : Server.MsgData :=
  Server.mkMsgData (Some "hello") (Some "global") false None None.
End Scenario.

(** ** Invariants of the in-memory stores *)
Module Reachable.
Import SocketHandlers.

(** Every session is listed under its user name in [socketsByUser]. *)
Definition sessions_indexed (st : State) : Prop :=
  ∀ sid u, JsObj.get sid (users st) = Some u →
           inherited_key (username u) = false →
           sid ∈ default ∅ (socketsByUser st !! username u).

(** No user name is kept in [socketsByUser] with an empty set. *)
Definition no_empty_user (st : State) : Prop :=
  ∀ name s, socketsByUser st !! name = Some s → s ≠ ∅.

(** Every member of a socket.io room, other than a connection in the
    room named by its own id, is recorded in [rooms]. *)
Definition rooms_mirror (st : State) : Prop :=
  ∀ r c, c ∈ sio_members r (io st) →
         c ∈ default ∅ (rooms st !! r) ∨ r = c ∨ inherited_key r = true.

(** Every typing entry belongs to a registered connection. *)
Definition typing_registered (st : State) : Prop :=
  ∀ sid name, JsObj.get sid (typingUsers st) = Some name →
              is_Some (JsObj.get sid (users st)).

(** The event names of the [emit] calls of socketHandlers.js. *)
Definition emitted_events : list string :=
  ["user_joined"; "user_list"; "notification"; "room_joined"; "room_left";
   "receive_message"; "private_message"; "typing_users"; "message_read";
   "message_reaction"; "user_left"].

Definition emits_known (tr : list Action) : Prop :=
  Forall (λ a, match a with
               | Emit _ ev _ => ev ∈ emitted_events
               | _ => True
               end) tr.
End Reachable.

(** ** server/server.js: connection, rooms, typing indicator, reactions,
    disconnect *)
Module ServerPresence.
Import Server.

Definition with_room (r : string) (u : User) : User :=
  mkUser (clerkId u) (username u) (uid u) r.

Definition with_reactions (r : list (string * string)) (d : Doc) : Doc :=
  mkDoc (doc_id d) (message d) (sender d) (senderId d) (to d) (doc_room d)
        (isPrivate d) (meta d) (timestamp d) (readBy d) r.

Definition set_users f (st : State) : State :=
  mkState (f (users st)) (socket_user st) (currentRoom st) (store st) (io st).
Definition set_currentRoom f (st : State) : State :=
  mkState (users st) (socket_user st) (f (currentRoom st)) (store st) (io st).
Definition set_io f (st : State) : State :=
  mkState (users st) (socket_user st) (currentRoom st) (store st) (f (io st)).

(** A document of the [User] model, as [User.find] returns it. *)
Record DbUser := mkDbUser {
  db_clerkId : string;
  db_username : string;
  db_socketId : option string;
  db_online : bool
}.

Inductive Payload :=
| PRoomUsers (l : list User)
| PTypingUpdate (socketId username : string)
| PTypingCleared (socketId : string)
| PReactionAdded (messageId type userId : string)
| PUserLeft (u : User)
| PUserJoined (username id : string)
| POnline (l : list DbUser).

(** [Saved d]: a [msg.save()] the store completed with document [d];
    [StoreFailed]: a store call that threw; [LogError]: the
    [console.error] of a [catch] block; [Log]: a [console.log];
    [Unhandled]: a rejection outside any [try], which ends the handler. *)
Inductive Action :=
| Saved (d : Doc)
| StoreFailed
| Emit (to : gset string) (ev : string) (p : Payload)
| LogError
| Log
| Unhandled.

Local Abbreviation Cmd := (Cmd State Action).

(** [io.to(room).emit], [io.emit], and [socket.to(room).emit], which
    leaves out the socket itself. *)
Definition io_to (room ev : string) (p : Payload) : Cmd :=
  reading (λ st, tell (Emit (sio_members room (io st)) ev p)).
Definition io_emit (ev : string) (p : Payload) : Cmd :=
  reading (λ st, tell (Emit (sio_sids (io st)) ev p)).
Definition socket_to (socket room ev : string) (p : Payload) : Cmd :=
  reading (λ st, tell (Emit (sio_members room (io st) ∖ {[socket]}) ev p)).

(** The [connection] listener, up to the registration of the event
    listeners; [socket.user] is what the middleware left.  [update_ok]:
    whether [User.findOneAndUpdate] returned; [online]: what [User.find]
    returned, if it did. *)
Definition connection (socket : string) (update_ok : bool)
    (online : option (list DbUser)) : Cmd :=
  modify (set_io (sio_connect socket)) ;;
  tell Log ;;
  reading (λ st,
    match socket_user st !! socket with
    | Some su =>
        if truthy (Some (cu_clerkId su)) then
          modify (set_users (JsObj.set socket
            (mkUser (Some (cu_clerkId su)) (cu_username su) socket "global"))) ;;
          if update_ok then
            match online with
            | Some l =>
                io_emit "user_list" (POnline l) ;;
                io_emit "user_joined" (PUserJoined (cu_username su) socket)
            | None => tell StoreFailed ;; tell LogError
            end
          else tell StoreFailed ;; tell LogError
        else skip
    | None => skip
    end).

Definition join_room (socket : string) (roomName : option string) : Cmd :=
  let room := or_else roomName "global" in
  modify (set_io (sio_join socket room)) ;;
  modify (set_currentRoom (<[socket := room]>)) ;;
  modify (set_users (λ us,
    match JsObj.get socket us with
    | Some u => JsObj.set socket (with_room room u) us
    | None => us
    end)) ;;
  tell Log ;;
  reading (λ st,
    io_to room "user_list"
      (PRoomUsers (filter (λ u, Server.room u = room) (JsObj.values (users st))))).

(** [users[socket.id] || socket.user], reduced to the name the handler
    reads from it. *)
Definition typing_user (socket : string) (st : State) : option string :=
  match JsObj.get socket (users st) with
  | Some u => Some (username u)
  | None => cu_username <$> socket_user st !! socket
  end.

Definition typing (socket : string) (isTyping : bool) : Cmd :=
  reading (λ st,
    let room := or_else (currentRoom st !! socket) "global" in
    match typing_user socket st with
    | None => skip
    | Some name =>
        if isTyping then
          socket_to socket room "typing_users_update" (PTypingUpdate socket name)
        else
          socket_to socket room "typing_users_cleared" (PTypingCleared socket)
    end).

(** [find_ok]: whether [Message.findById] returned rather than threw;
    [save_ok]: whether [msg.save()] did. *)
Definition add_reaction (socket messageId type : string) (find_ok save_ok : bool) : Cmd :=
  if negb find_ok then tell StoreFailed ;; tell LogError else
  reading (λ st,
    match js_find (has_id messageId) (store st) with
    | None => skip
    | Some msg =>
        let userId := userId socket st in
        let msg' := with_reactions (reactions msg ++ [(userId, type)]) msg in
        if save_ok then
          modify (set_store (js_mutate_found (has_id messageId) (λ _, msg'))) ;;
          tell (Saved msg') ;;
          io_emit "reaction_added" (PReactionAdded messageId type userId)
        else tell StoreFailed ;; tell LogError
    end).

(** The [disconnect] listener; socket.io has removed the socket from its
    rooms before it runs.  [update_ok]: whether [User.findOneAndUpdate]
    returned; [online]: what [User.find] returned, if it did. *)
Definition disconnect (socket : string) (update_ok : bool)
    (online : option (list DbUser)) : Cmd :=
  modify (set_io (sio_disconnect socket)) ;;
  reading (λ st,
    match JsObj.get socket (users st) with
    | Some user =>
        (if update_ok then
           io_to (or_else (Some (Server.room user)) "global") "user_left" (PUserLeft user)
         else tell StoreFailed ;; tell LogError) ;;
        modify (set_users (JsObj.delete socket)) ;;
        match online with
        | Some l => io_emit "user_list" (POnline l) ;; tell Log
        | None => tell StoreFailed ;; tell Unhandled
        end
    | None => tell Log
    end).

(** The payloads of event [ev] written to connection [c], in order. *)
Fixpoint deliveries (c ev : string) (tr : list Action) : list Payload :=
  match tr with
  | [] => []
  | Emit to e p :: tr' =>
      if String.eqb e ev && bool_decide (c ∈ to) then p :: deliveries c ev tr'
      else deliveries c ev tr'
  | _ :: tr' => deliveries c ev tr'
  end.

Definition server_deliveries (c ev : string) (tr : list Server.Action)
    : list Server.Payload :=
  omap (λ a, match a with
             | Server.Emit to e p =>
                 if String.eqb e ev && bool_decide (c ∈ to) then Some p else None
             | _ => None
             end) tr.
End ServerPresence.

(** ** client/src/socket/socket.js: the typing list *)
Module Client.

(** The state update of [handleTyping]; the expiry timer applies the
    update of [isTyping = false]. *)
Definition handleTyping (username : string) (isTyping : bool)
    (prev : list string) : list string :=
  if isTyping then
    if bool_decide (username ∈ prev) then prev else prev ++ [username]
  else filter (λ u, u ≠ username) prev.
End Client.


(** * Properties *)

Import SocketHandlers Scenario.

(** ** Sets *)

Lemma elem_of_js_set_add x y (s : JsSet) : y ∈ js_set_add x s ↔ y = x ∨ y ∈ s.
Proof.
  unfold js_set_add. case_bool_decide as Hin.
  - split; [by right | intros [->|?]; done].
  - rewrite elem_of_app, list_elem_of_singleton. tauto.
Qed.

Lemma elem_of_js_set_delete x y (s : JsSet) :
  y ∈ js_set_delete x s ↔ y ∈ s ∧ y ≠ x.
Proof. unfold js_set_delete. rewrite list_elem_of_filter. tauto. Qed.

Lemma elem_of_js_set_elements y (s : JsSet) : y ∈ elements s ↔ y ∈ s.
Proof. apply elem_of_remove_dups. Qed.

Lemma NoDup_js_set_elements (s : JsSet) : NoDup (elements s).
Proof. apply NoDup_remove_dups. Qed.

Lemma NoDup_js_set_add x (s : JsSet) : NoDup s → NoDup (js_set_add x s).
Proof.
  intros Hnd. unfold js_set_add. case_bool_decide as Hin; [done|].
  apply NoDup_app. split; [done|]. split; [|apply NoDup_singleton].
  intros y Hy ->%list_elem_of_singleton. done.
Qed.

Lemma NoDup_js_set_delete x (s : JsSet) : NoDup s → NoDup (js_set_delete x s).
Proof. apply NoDup_filter. Qed.

Lemma seq_fst {St Act} (c1 c2 : Cmd St Act) st :
  (seq c1 c2 st).1 = (c2 (c1 st).1).1.
Proof. unfold seq. destruct (c1 st) as [st1 t1]. simpl. by destruct (c2 st1). Qed.

Lemma deliveries_app c ev t1 t2 :
  deliveries c ev (t1 ++ t2) = deliveries c ev t1 ++ deliveries c ev t2.
Proof.
  induction t1 as [|a t1 IH]; [done|].
  destruct a; simpl; rewrite ?IH; try done.
  by destruct (_ && _).
Qed.

Lemma send_message_run st socket payload ack fr user :
  JsObj.get socket (users st) = Some user →
  let msg := createMessage fr (p_text payload) (username user) socket
               (Some (or_else (p_roomId payload) "global")) None None
               (or_null (p_fileUrl payload)) in
  send_message socket payload ack fr st =
    ( (cap_messages (set_messages (λ ms, ms ++ [msg]) st)).1,
      Stored msg :: (cap_messages (set_messages (λ ms, ms ++ [msg]) st)).2 ++
      Emit (sio_members (Message.roomId msg) (io st)) "receive_message" (PMessage msg) ::
      (if ack then [Ack socket (AckSent (Message.id msg) (Some (Message.timestamp msg)))]
       else []) ++
      [Emit (sio_sids (io st)) "notification"
         (PNotifMessage (Message.roomId msg) (Message.id msg))] ).
Proof.
  intros Hu msg. unfold send_message, reading. rewrite Hu. fold msg.
  unfold push_message, seq, modify, tell, io_to, io_emit, call_ack, when, reading.
  set (st1 := set_messages _ st).
  assert (Hio : io (cap_messages st1).1 = io st).
  { unfold cap_messages, reading. destruct (2000 <? _); [|done].
    destruct (messages st1); done. }
  destruct (cap_messages st1) as [st2 t2] eqn:Hcap. simpl in *.
  destruct ack; simpl; by rewrite ?Hio.
Qed.

Lemma cap_messages_run st :
  cap_messages st =
    if 2000 <? Z.of_nat (length (messages st)) then
      match messages st with
      | old :: rest => (set_messages (λ _, rest) st, [Dropped old])
      | [] => (st, [])
      end
    else (st, []).
Proof.
  unfold cap_messages, reading. destruct (2000 <? _); [|done].
  by destruct (messages st).
Qed.

Lemma cap_messages_last st m :
  last (messages st) = Some m →
  last (messages (cap_messages st).1) = Some m.
Proof.
  intros Hl. rewrite cap_messages_run.
  destruct (2000 <? _) eqn:Hlen; [|done].
  destruct (messages st) as [|old rest] eqn:Hm; [done|]. simpl.
  destruct rest as [|m' rest]; [|done].
  simpl in Hlen. apply Z.ltb_lt in Hlen. lia.
Qed.

Lemma cap_messages_deliveries st c ev :
  deliveries c ev (cap_messages st).2 = [].
Proof.
  rewrite cap_messages_run. destruct (2000 <? _); [|done].
  by destruct (messages st).
Qed.

(** C2: a room message is written exactly once to every member of the
    room and to no one else, and carries the id and timestamp under which
    it was stored. *)
Theorem C2_room_fanout st socket payload ack fr user :
  JsObj.get socket (users st) = Some user →
  let res := send_message socket payload ack fr st in
  ∃ msg,
    last (messages res.1) = Some msg ∧
    Message.id msg = fresh_id fr ∧
    Message.timestamp msg = fresh_ts fr ∧
    Message.roomId msg = or_else (p_roomId payload) "global" ∧
    ∀ c, deliveries c "receive_message" res.2 =
         if bool_decide (c ∈ sio_members (Message.roomId msg) (io st))
         then [PMessage msg] else [].
Proof.
  intros Hu res. subst res. rewrite (send_message_run _ _ _ _ _ _ Hu).
  eexists (createMessage fr (p_text payload) (username user) socket
               (Some (or_else (p_roomId payload) "global")) None None
               (or_null (p_fileUrl payload))).
  split; [|split; [|split; [|split]]]; try reflexivity.
  - simpl. apply cap_messages_last. simpl. by rewrite last_snoc.
  - intros c. cbn [snd deliveries].
    rewrite deliveries_app, cap_messages_deliveries. simpl.
    rewrite deliveries_app.
    replace (deliveries c "receive_message" (if ack then _ else _)) with (@nil Payload)
      by (by destruct ack).
    simpl. by case_bool_decide.
Qed.

Lemma C2_room_fanout_witness :
  let res := send_message "s1" hi true fr1 general in
  JsObj.get "s1" (users general) = Some (mkUser "alice" "s1") ∧
  sio_members "general" (io general) = {["s1"; "s5"]} ∧
  ∃ msg,
    last (messages res.1) = Some msg ∧
    Message.id msg = fresh_id fr1 ∧
    Message.timestamp msg = fresh_ts fr1 ∧
    Message.roomId msg = "general" ∧
    deliveries "s1" "receive_message" res.2 = [PMessage msg] ∧
    deliveries "s5" "receive_message" res.2 = [PMessage msg] ∧
    deliveries "s2" "receive_message" res.2 = [] ∧
    deliveries "s3" "receive_message" res.2 = [].
Proof.
  intros res. split; [reflexivity|]. split; [vm_compute; reflexivity|].
  destruct (C2_room_fanout general "s1" hi true fr1 (mkUser "alice" "s1") eq_refl)
    as (msg & Hlast & Hid & Hts & Hroom & Hfan).
  exists msg. split; [exact Hlast|]. split; [exact Hid|]. split; [exact Hts|].
  split; [exact Hroom|]. fold res in Hfan. rewrite !Hfan, Hroom.
  repeat split; vm_compute; reflexivity.
Defined.

Lemma for_each_io_to st (l : list string) ev p :
  for_each l (λ sid, io_to sid ev p) st =
    (st, (λ sid, Emit (sio_members sid (io st)) ev p) <$> l).
Proof.
  induction l as [|sid l IH]; [done|].
  change (for_each (sid :: l) (λ sid, io_to sid ev p) st)
    with (seq (io_to sid ev p) (for_each l (λ sid, io_to sid ev p)) st).
  unfold seq. cbn [io_to reading tell]. by rewrite IH.
Qed.

Lemma private_message_run st socket to text fileUrl ack fr from :
  JsObj.get socket (users st) = Some from →
  inherited_key to = false →
  let msg := createMessage fr text (username from) socket None
               (Some true) (Some to) (or_null fileUrl) in
  let recSockets := elements (default ∅ (socketsByUser st !! to)) in
  private_message socket to text fileUrl ack fr st =
    ( set_messages (λ ms, ms ++ [msg]) st,
      Stored msg ::
      ((λ sid, Emit (sio_members sid (io st)) "private_message" (PMessage msg)) <$> recSockets) ++
      Emit {[socket]} "private_message" (PMessage msg) ::
      (if ack then [Ack socket (AckSent (Message.id msg) None)] else []) ++
      ((λ sid, Emit (sio_members sid (io st)) "notification"
                 (PNotifPrivate (Message.id msg) (username from))) <$> recSockets) ).
Proof.
  intros Hu Hto msg recSockets. unfold private_message, reading. rewrite Hu, Hto.
  fold msg. unfold push_message, seq, modify, tell, socket_emit, call_ack, when.
  simpl. fold recSockets. rewrite for_each_io_to.
  destruct ack; simpl; rewrite for_each_io_to; simpl; by rewrite ?app_nil_r.
Qed.

Lemma private_message_throws st socket to text fileUrl ack fr from :
  JsObj.get socket (users st) = Some from →
  inherited_key to = true →
  let msg := createMessage fr text (username from) socket None
               (Some true) (Some to) (or_null fileUrl) in
  private_message socket to text fileUrl ack fr st =
    (set_messages (λ ms, ms ++ [msg]) st, [Stored msg; Throw]).
Proof.
  intros Hu Hto msg. unfold private_message, reading. by rewrite Hu, Hto.
Qed.

Lemma deliveries_other_event c ev ev' (to : string → gset string) p (l : list string) :
  String.eqb ev' ev = false →
  deliveries c ev ((λ sid, Emit (to sid) ev' p) <$> l) = [].
Proof.
  intros Hne. induction l as [|sid l IH]; [done|]. simpl. by rewrite Hne.
Qed.

Lemma deliveries_own_rooms c ev (to : string → gset string) p (l : list string) :
  NoDup l →
  (∀ sid, sid ∈ l → to sid = {[sid]}) →
  deliveries c ev ((λ sid, Emit (to sid) ev p) <$> l) =
    if bool_decide (c ∈ l) then [p] else [].
Proof.
  intros Hnd. induction Hnd as [|sid l Hni Hnd IH]; intros Hown; [done|].
  rewrite fmap_cons. cbn [deliveries]. rewrite String.eqb_refl. simpl.
  rewrite (Hown sid) by apply list_elem_of_here.
  rewrite IH by (intros; by apply Hown, list_elem_of_further).
  clear Hown IH.
  destruct (decide (c = sid)) as [->|Hne].
  - rewrite bool_decide_true by by apply elem_of_singleton.
    rewrite (bool_decide_false (sid ∈ l)) by done.
    by rewrite bool_decide_true by apply list_elem_of_here.
  - rewrite bool_decide_false by by rewrite elem_of_singleton.
    apply (f_equal (λ b : bool, if b then [p] else [])).
    apply bool_decide_ext. rewrite elem_of_cons.
    split; [by right | by intros [?|?]].
Qed.

Lemma deliveries_rooms_count c ev (to : string → gset string) p (l : list string) :
  deliveries c ev ((λ sid, Emit (to sid) ev p) <$> l) =
    replicate (length (filter (λ sid, c ∈ to sid) l)) p.
Proof.
  induction l as [|sid l IH]; [done|].
  rewrite fmap_cons. cbn [deliveries]. rewrite String.eqb_refl. simpl. rewrite IH.
  destruct (decide (c ∈ to sid)) as [Hin|Hni].
  - rewrite bool_decide_true, filter_cons_True by done. done.
  - rewrite bool_decide_false, filter_cons_False by done. done.
Qed.

(** C3 (amended): a private message to a user whose name is an ordinary
    key is emitted once to the socket.io room named by the id of each
    connection of the target user, and once to the sending connection,
    and to nothing else.  A connection receives one copy for every
    connection of the target whose id names a room it is in, and one more
    if it is the sender.  Where each connection of the target is alone in
    the room of its id, as socket.io sets it up, that is once for every
    connection of the target, once more for the sending connection, and
    nothing for any other, the other connections of the sender
    included. *)
Theorem C3_private_fanout st socket to text fileUrl ack fr from :
  JsObj.get socket (users st) = Some from →
  inherited_key to = false →
  let res := private_message socket to text fileUrl ack fr st in
  let targets := elements (default ∅ (socketsByUser st !! to)) in
  ∃ msg,
    last (messages res.1) = Some msg ∧
    Message.id msg = fresh_id fr ∧
    Message.isPrivate msg = true ∧
    Message.toUser msg = Some to ∧
    (∀ c, deliveries c "private_message" res.2 =
          replicate (length (filter (λ sid, c ∈ sio_members sid (io st)) targets))
            (PMessage msg) ++
          (if bool_decide (c = socket) then [PMessage msg] else [])) ∧
    ((∀ sid, sid ∈ targets → sio_members sid (io st) = {[sid]}) →
     ∀ c, deliveries c "private_message" res.2 =
          (if bool_decide (c ∈ targets) then [PMessage msg] else []) ++
          (if bool_decide (c = socket) then [PMessage msg] else [])).
Proof.
  intros Hu Hto res targets. subst res.
  rewrite (private_message_run _ _ _ _ _ _ _ _ Hu Hto).
  eexists (createMessage fr text (username from) socket None
             (Some true) (Some to) (or_null fileUrl)).
  assert (Hecho : ∀ c (p : Payload),
    (if bool_decide (c ∈ ({[socket]} : gset string)) then [p] else []) =
    (if bool_decide (c = socket) then [p] else [])).
  { intros c p. apply (f_equal (λ b : bool, if b then [p] else [])).
    apply bool_decide_ext. by rewrite elem_of_singleton. }
  split; [|split; [|split; [|split; [|split]]]]; try reflexivity.
  - simpl. by rewrite last_snoc.
  - intros c. cbn [snd deliveries].
    rewrite deliveries_app. cbn [deliveries String.eqb Ascii.eqb Bool.eqb andb].
    rewrite deliveries_app, (deliveries_other_event _ _ "notification") by done.
    replace (deliveries c "private_message" (if ack then _ else _)) with (@nil Payload)
      by (by destruct ack).
    rewrite deliveries_rooms_count. f_equal. rewrite <- Hecho.
    by destruct (bool_decide _).
  - intros Hown c. cbn [snd deliveries].
    rewrite deliveries_app. cbn [deliveries String.eqb Ascii.eqb Bool.eqb andb].
    rewrite deliveries_app, (deliveries_other_event _ _ "notification") by done.
    replace (deliveries c "private_message" (if ack then _ else _)) with (@nil Payload)
      by (by destruct ack).
    rewrite deliveries_own_rooms; [|apply NoDup_js_set_elements|exact Hown].
    f_equal. rewrite <- Hecho. by destruct (bool_decide (c ∈ {[socket]})).
Qed.

Lemma C3_private_fanout_witness :
  let st := (run [("s5", EJoinRoom (Some "s3")); ("s4", ELeaveRoom (Some "s4"))] lobby).1 in
  let res := private_message "s1" "carol" (Some "hi") None true fr0 st in
  JsObj.get "s1" (users st) = Some (mkUser "alice" "s1") ∧
  inherited_key "carol" = false ∧
  ∃ msg,
    last (messages res.1) = Some msg ∧
    Message.id msg = fresh_id fr0 ∧
    deliveries "s3" "private_message" res.2 = [PMessage msg] ∧
    deliveries "s4" "private_message" res.2 = [] ∧
    deliveries "s5" "private_message" res.2 = [PMessage msg] ∧
    deliveries "s1" "private_message" res.2 = [PMessage msg] ∧
    deliveries "s2" "private_message" res.2 = [].
Proof.
  intros st res. split; [reflexivity|]. split; [reflexivity|].
  destruct (C3_private_fanout st "s1" "carol" (Some "hi") None true fr0
              (mkUser "alice" "s1") eq_refl eq_refl)
    as (msg & Hlast & Hid & _ & _ & Hcount & _).
  exists msg. split; [exact Hlast|]. split; [exact Hid|].
  fold res in Hcount.
  rewrite !Hcount. repeat split; vm_compute; reflexivity.
Defined.

(** C3, as stated, fails.  alice sends from "s1" while her second device
    "s2" is connected: "s2" is written nothing.  After bob's connection
    "s5" has joined the room named "s3", the id of one of carol's
    connections, it is written alice's message to carol.  After carol's
    connection "s4" has left the room named by its own id, it is written
    nothing.  And a message to a user named "constructor" is stored, but
    the handler throws before it writes to anyone, the sender included. *)
Lemma C3_counterexample :
  let res := private_message "s1" "carol" (Some "hi") None true fr0 lobby in
  let st := (run [("s5", EJoinRoom (Some "s3")); ("s4", ELeaveRoom (Some "s4"))] lobby).1 in
  let res' := private_message "s1" "carol" (Some "hi") None true fr0 st in
  (username <$> JsObj.get "s1" (users lobby)) = Some "alice" ∧
  "s2" ∈ default ∅ (socketsByUser lobby !! "alice") ∧
  deliveries "s2" "private_message" res.2 = [] ∧
  length (deliveries "s1" "private_message" res.2) = 1%nat ∧
  length (deliveries "s3" "private_message" res.2) = 1%nat ∧
  length (deliveries "s4" "private_message" res.2) = 1%nat ∧
  (username <$> JsObj.get "s5" (users st)) = Some "bob" ∧
  length (deliveries "s5" "private_message" res'.2) = 1%nat ∧
  "s4" ∈ default ∅ (socketsByUser st !! "carol") ∧
  deliveries "s4" "private_message" res'.2 = [] ∧
  (private_message "s1" "constructor" (Some "hi") None true fr0 lobby).2 =
    [Stored (createMessage fr0 (Some "hi") "alice" "s1" None (Some true)
               (Some "constructor") None);
     Throw].
Proof.
  cbv zeta.
  repeat match goal with |- _ ∧ _ => split end;
    try (vm_compute; reflexivity);
    apply (bool_decide_unpack _); vm_compute; exact I.
Qed.

(** ** Persistence before fan-out *)

Lemma stored_before_emit_fanout stored (to : string → gset string) ev m l tr :
  m ∈ stored →
  stored_before_emit stored tr →
  stored_before_emit stored (((λ sid, Emit (to sid) ev (PMessage m)) <$> l) ++ tr).
Proof. intros Hm Htr. induction l as [|sid l IH]; [done|]. by split. Qed.

Lemma stored_before_emit_notify stored (to : string → gset string) ev a b l :
  stored_before_emit stored ((λ sid, Emit (to sid) ev (PNotifPrivate a b)) <$> l).
Proof. induction l as [|sid l IH]; done. Qed.

Lemma send_message_stored_first st socket payload ack fr :
  stored_before_emit [] (send_message socket payload ack fr st).2.
Proof.
  destruct (JsObj.get socket (users st)) as [user|] eqn:Hu.
  - rewrite (send_message_run _ _ _ _ _ _ Hu). cbn [snd stored_before_emit].
    rewrite cap_messages_run. destruct (2000 <? _).
    + destruct (messages _); simpl; (split; [apply list_elem_of_here|]);
        by destruct ack.
    + simpl. split; [apply list_elem_of_here|]. by destruct ack.
  - unfold send_message, reading. rewrite Hu. by destruct ack.
Qed.

Lemma private_message_stored_first st socket to text fileUrl ack fr :
  stored_before_emit [] (private_message socket to text fileUrl ack fr st).2.
Proof.
  destruct (JsObj.get socket (users st)) as [from|] eqn:Hu.
  - destruct (inherited_key to) eqn:Hto;
      [by rewrite (private_message_throws _ _ _ _ _ _ _ _ Hu Hto)|].
    rewrite (private_message_run _ _ _ _ _ _ _ _ Hu Hto). cbn [snd stored_before_emit].
    apply stored_before_emit_fanout; [apply list_elem_of_here|].
    split; [apply list_elem_of_here|].
    destruct ack; apply stored_before_emit_notify.
  - unfold private_message, reading. rewrite Hu. by destruct ack.
Qed.

Lemma server_private_message_failed st socket to message now :
  (Server.private_message socket to message now None st).1 = st ∧
  Server.emits (Server.private_message socket to message now None st).2 = [].
Proof.
  unfold Server.private_message. by destruct (negb _ || negb _).
Qed.

Lemma server_private_message_stored_first st socket to message now outcome :
  Server.stored_before_emit [] (Server.private_message socket to message now outcome st).2.
Proof.
  unfold Server.private_message. destruct (negb _ || negb _); [done|].
  destruct outcome; simpl; [|done].
  split; [apply list_elem_of_here|]. split; [apply list_elem_of_here|done].
Qed.

(** C1 (amended): in both servers a message is written to connections
    only after it has been stored.  In server.js a failed [Message.create]
    aborts the send: the store is unchanged, nothing is emitted to any
    connection, the sender included, and the error is only logged; a
    successful one is followed by the emit of the saved document.  In
    socketHandlers.js storing cannot fail; a send from an unregistered
    connection stores and emits nothing and is answered on the sender's
    acknowledgement only. *)
Theorem C1_persist_before_fanout :
  (∀ st socket payload ack fr,
      stored_before_emit [] (send_message socket payload ack fr st).2) ∧
  (∀ st socket to text fileUrl ack fr,
      stored_before_emit [] (private_message socket to text fileUrl ack fr st).2) ∧
  (∀ st socket d now outcome,
      Server.stored_before_emit [] (Server.send_message socket d now outcome st).2) ∧
  (∀ st socket to message now outcome,
      Server.stored_before_emit []
        (Server.private_message socket to message now outcome st).2) ∧
  (∀ st socket d now,
      Server.send_message socket d now None st =
        (st, [Server.StoreFailed; Server.LogError])) ∧
  (∀ st socket to message now,
      (Server.private_message socket to message now None st).1 = st ∧
      Server.emits (Server.private_message socket to message now None st).2 = []) ∧
  (∀ st socket d now i,
      ∃ saved, Server.doc_id saved = i ∧
        Server.store (Server.send_message socket d now (Some i) st).1 =
          Server.store st ++ [saved] ∧
        (Server.send_message socket d now (Some i) st).2 =
          [Server.Persisted saved;
           Server.Emit (sio_members (Server.doc_room saved) (Server.io st))
             "receive_message" (Server.PDoc saved)]) ∧
  (∀ st socket payload ack fr,
      is_Some (JsObj.get socket (users st)) ∨
      send_message socket payload ack fr st =
        (st, if ack then [Ack socket (AckError "not_authenticated")] else [])).
Proof.
  split; [apply send_message_stored_first|].
  split; [apply private_message_stored_first|].
  split.
  { intros. destruct outcome; simpl; [|done]. split; [apply list_elem_of_here|done]. }
  split; [apply server_private_message_stored_first|].
  split; [done|].
  split; [apply server_private_message_failed|].
  split.
  { intros. simpl. eexists (Server.with_id i _).
    split; [reflexivity|]. split; reflexivity. }
  intros st socket payload ack fr.
  destruct (JsObj.get socket (users st)) as [u|] eqn:Hu; [by left; eexists|].
  right. unfold send_message, reading. rewrite Hu. by destruct ack.
Qed.

(** C1, as stated, fails in server.js: when [Message.create] throws, the
    handler only logs; no action of the trace writes to the sender. *)
Lemma C1_counterexample :
  let res := Server.send_message "s1" hello "2023-11-14T22:13:20.000Z" None guest in
  "s1" ∈ sio_sids (Server.io guest) ∧
  res.1 = guest ∧
  res.2 = [Server.StoreFailed; Server.LogError] ∧
  Server.emits res.2 = [].
Proof.
  cbv zeta. split; [apply (bool_decide_unpack _); vm_compute; exact I|].
  repeat split; reflexivity.
Qed.

(** ** Registration *)

Lemma JsObj_get_set_eq {V} k (v : V) o : JsObj.get k (JsObj.set k v o) = Some v.
Proof.
  induction o as [|[k' v'] o IH]; simpl.
  - by rewrite bool_decide_true.
  - case_bool_decide as Hk; simpl.
    + by rewrite bool_decide_true.
    + by rewrite bool_decide_false.
Qed.

Lemma JsObj_get_set_ne {V} k k' (v : V) o :
  k' ≠ k → JsObj.get k' (JsObj.set k v o) = JsObj.get k' o.
Proof.
  intros Hne. induction o as [|[k0 v0] o IH]; simpl.
  - by rewrite bool_decide_false.
  - case_bool_decide as Hk; simpl.
    + subst k0. by rewrite !bool_decide_false.
    + by rewrite IH.
Qed.

(** The Sets of [rooms] under assignment, update and the own-key write
    of [join_room]. *)
Lemma rooms_lookup_insert_eq (rs : Rooms) r s :
  inherited_key r = false → <[r := s]> rs !! r = Some s.
Proof.
  intros Hr. unfold lookup, rooms_lookup, insert, rooms_insert. rewrite Hr.
  apply JsObj_get_set_eq.
Qed.

Lemma rooms_lookup_insert_ne (rs : Rooms) r r' s :
  r' ≠ r → <[r := s]> rs !! r' = rs !! r'.
Proof.
  intros Hne. unfold lookup, rooms_lookup, insert, rooms_insert.
  destruct (inherited_key r'); [done|]. by apply JsObj_get_set_ne.
Qed.

Lemma rooms_lookup_alter_eq (f : gset string → gset string) (rs : Rooms) r :
  alter f r rs !! r = f <$> rs !! r.
Proof.
  unfold alter, rooms_alter. destruct (rs !! r) as [s|] eqn:Hs; [|by rewrite Hs].
  simpl. unfold lookup, rooms_lookup in *.
  destruct (inherited_key r); [done|]. apply JsObj_get_set_eq.
Qed.

Lemma rooms_lookup_alter_ne (f : gset string → gset string) (rs : Rooms) r r' :
  r' ≠ r → alter f r rs !! r' = rs !! r'.
Proof.
  intros Hne. unfold alter, rooms_alter. destruct (rs !! r) as [s|]; [|done].
  unfold lookup, rooms_lookup. destruct (inherited_key r'); [done|].
  by apply JsObj_get_set_ne.
Qed.

Lemma JsObj_get_app_ne {V} k k' (v : V) o :
  k' ≠ k → JsObj.get k' (o ++ [(k, v)]) = JsObj.get k' o.
Proof.
  intros Hne. induction o as [|[k0 v0] o IH]; simpl.
  - by rewrite bool_decide_false.
  - by rewrite IH.
Qed.

Lemma rooms_lookup_own_inherited (rs : Rooms) r r' :
  inherited_key r = true → own_inherited r rs !! r' = rs !! r'.
Proof.
  intros Hr. unfold own_inherited. destruct (_ || _); [done|].
  unfold lookup, rooms_lookup. destruct (inherited_key r') eqn:Hr'; [done|].
  apply JsObj_get_app_ne. intros ->. congruence.
Qed.

Lemma JsObj_set_id {V} k (v : V) o : JsObj.get k o = Some v → JsObj.set k v o = o.
Proof.
  induction o as [|[k0 v0] o IH]; simpl; [done|].
  case_bool_decide as Hk.
  - intros [= ->]. by subst k0.
  - intros Hget. by rewrite IH.
Qed.

Lemma JsObj_get_elem_of_keys {V} k (v : V) o : JsObj.get k o = Some v → k ∈ o.*1.
Proof.
  induction o as [|[k0 v0] o IH]; simpl; [done|].
  case_bool_decide as Hk.
  - intros _. subst k0. apply list_elem_of_here.
  - intros Hget. by apply list_elem_of_further, IH.
Qed.

Lemma rooms_lookup_elem_of_keys (rs : Rooms) r s : rs !! r = Some s → r ∈ rs.*1.
Proof.
  unfold lookup, rooms_lookup. destruct (inherited_key r); [done|].
  apply JsObj_get_elem_of_keys.
Qed.




(** ** Read receipts *)

Section find.
Context {A : Type} (p : A → bool).

Lemma js_find_Some l x : js_find p l = Some x → p x = true.
Proof.
  induction l as [|y l IH]; [done|]. simpl.
  destruct (p y) eqn:Hy; [|done]. by intros [= ->].
Qed.

Lemma js_find_Forall (P : A → Prop) l x :
  Forall P l → js_find p l = Some x → P x.
Proof.
  induction 1 as [|y l Hy Hl IH]; [done|]. simpl.
  destruct (p y); [by intros [= <-] | done].
Qed.

Section mutate.
Variable f : A → A.
Hypothesis f_keeps_p : ∀ x, p x = true → p (f x) = true.

Lemma js_find_mutate l :
  js_find p (js_mutate_found p f l) = f <$> js_find p l.
Proof.
  induction l as [|x l IH]; [done|]. simpl.
  destruct (p x) eqn:Hx; simpl.
  - by rewrite (f_keeps_p x Hx).
  - by rewrite Hx.
Qed.

End mutate.

Lemma js_mutate_found_Forall (P : A → Prop) f l :
  (∀ x, P x → P (f x)) → Forall P l → Forall P (js_mutate_found p f l).
Proof.
  intros Hf. induction 1 as [|x l Hx Hl IH]; [constructor|]. simpl.
  destruct (p x); constructor; auto.
Qed.
End find.



Lemma message_read_run st socket mid u :
  message_read socket mid u st =
    match js_find (has_id mid) (messages st) with
    | None => (st, [])
    | Some m =>
        (set_messages (js_mutate_found (has_id mid) (mark_read u)) st,
         if Message.isPrivate m then
           if inherited_key (Message.sender m) then [Throw] else
           (λ sid, Emit (sio_members sid (io st)) "message_read" (PRead mid u))
             <$> elements (default ∅ (socketsByUser st !! Message.sender m))
         else
           [Emit (sio_members (or_else (Some (Message.roomId m)) "global") (io st))
              "message_read" (PRead mid u)])
    end.
Proof.
  unfold message_read, reading.
  destruct (js_find _ _) as [m|]; [|done].
  unfold seq, modify. simpl.
  destruct (Message.isPrivate m); [|done].
  destruct (inherited_key (Message.sender m)); [done|].
  by rewrite for_each_io_to.
Qed.






(** ** Reactions *)

Lemma js_indexOf_None x l : js_indexOf x l = None ↔ x ∉ l.
Proof.
  induction l as [|y l IH]; simpl.
  - split; [intros _; apply not_elem_of_nil | done].
  - rewrite not_elem_of_cons. case_bool_decide as Hy.
    + split; [done | intros [Hne _]; congruence].
    + destruct (js_indexOf x l); simpl.
      * split; [done | intros [_ Hni]; by apply IH in Hni].
      * split; [intros _; split; [congruence | by apply IH] | done].
Qed.

Lemma js_indexOf_Some x l i :
  js_indexOf x l = Some i → l !! i = Some x.
Proof.
  revert i. induction l as [|y l IH]; intros i; simpl; [done|].
  case_bool_decide as Hy.
  - intros [= <-]. simpl. by subst.
  - destruct (js_indexOf x l) as [j|]; simpl; [|done].
    intros [= <-]. simpl. by apply IH.
Qed.

Lemma elem_of_toggle x y l :
  NoDup l →
  y ∈ toggle x l ↔ (y ≠ x ∧ y ∈ l) ∨ (y = x ∧ x ∉ l).
Proof.
  intros Hnd. unfold toggle.
  destruct (js_indexOf x l) as [i|] eqn:Hi.
  - apply js_indexOf_Some in Hi.
    rewrite delete_take_drop.
    rewrite <- (take_drop_middle l i x Hi) in Hnd.
    rewrite <- (take_drop_middle l i x Hi) at 3 4.
    apply NoDup_app in Hnd as (_ & Hdisj & Hnd2).
    apply NoDup_cons in Hnd2 as [Hx2 _].
    assert (Hx1 : x ∉ take i l).
    { intros Hin. apply (Hdisj x Hin), list_elem_of_here. }
    rewrite !elem_of_app, !elem_of_cons.
    split.
    + intros [Hy|Hy]; left; (split; [intros ->; done|]); [by left | by right; right].
    + intros [[Hne [Hy|[Hy|Hy]]]|[-> Hni]]; [by left | done | by right |].
      exfalso. apply Hni. right. by left.
  - apply js_indexOf_None in Hi.
    rewrite elem_of_app, list_elem_of_singleton.
    split.
    + intros [Hy| ->]; [left; split; [by intros ->|done] | by right].
    + intros [[_ Hy]|[-> _]]; [by left | by right].
Qed.

Lemma NoDup_toggle x l : NoDup l → NoDup (toggle x l).
Proof.
  intros Hnd. unfold toggle.
  destruct (js_indexOf x l) as [i|] eqn:Hi.
  - rewrite delete_take_drop.
    rewrite <- (take_drop i l) in Hnd.
    apply NoDup_app in Hnd as (H1 & Hdisj & H2).
    apply NoDup_app. split; [done|]. split.
    + intros y Hy Hy'. apply (Hdisj y Hy).
      rewrite <- (take_drop 1 (drop i l)). apply elem_of_app. right.
      by rewrite drop_drop, Nat.add_comm.
    + rewrite <- (take_drop 1 (drop i l)) in H2.
      apply NoDup_app in H2 as (_ & _ & H2).
      by rewrite drop_drop, Nat.add_comm in H2.
  - apply js_indexOf_None in Hi. apply NoDup_app.
    split; [done|]. split; [|apply NoDup_singleton].
    intros y Hy ->%list_elem_of_singleton. done.
Qed.

Lemma elem_of_toggle_twice x y l :
  NoDup l → y ∈ toggle x (toggle x l) ↔ y ∈ l.
Proof.
  intros Hnd.
  rewrite (elem_of_toggle x y (toggle x l)) by by apply NoDup_toggle.
  rewrite !(elem_of_toggle x _ l) by done.
  destruct (decide (y = x)) as [->|Hne]; destruct (decide (x ∈ l)); tauto.
Qed.

Lemma reacted_toggle_reaction m reaction u k v :
  NoDup (default [] (Message.reactions m !! reaction)) →
  reacted (toggle_reaction reaction u m) k v ↔
    if bool_decide (k = reaction ∧ v = u) then ¬ reacted m k v else reacted m k v.
Proof.
  intros Hnd. unfold reacted, toggle_reaction. simpl.
  destruct (decide (k = reaction)) as [->|Hk].
  - rewrite lookup_insert_eq. simpl. rewrite elem_of_toggle by done.
    case_bool_decide as Hb.
    + destruct Hb as [_ ->]. tauto.
    + split; [intros [[? ?]|[-> ?]]; tauto | intros ?; left; split; [|done]].
      intros ->. tauto.
  - rewrite lookup_insert_ne by done.
    rewrite bool_decide_false; [done|]. by intros [? _].
Qed.

Lemma toggle_reaction_NoDup m reaction u :
  NoDup (default [] (Message.reactions m !! reaction)) →
  NoDup (default [] (Message.reactions (toggle_reaction reaction u m) !! reaction)).
Proof.
  intros Hnd. unfold toggle_reaction. simpl. rewrite lookup_insert_eq. simpl.
  by apply NoDup_toggle.
Qed.

Lemma message_reaction_run st socket mid reaction u :
  message_reaction socket mid reaction u st =
    match js_find (has_id mid) (messages st) with
    | None => (st, [])
    | Some m =>
        if inherited_key reaction then (st, [Throw]) else
        (set_messages (js_mutate_found (has_id mid) (toggle_reaction reaction u)) st,
         if Message.isPrivate m then
           if inherited_key (js_key (Message.toUser m)) || inherited_key (Message.sender m)
           then [Throw] else
           (λ sid, Emit (sio_members sid (io st)) "message_reaction"
                     (PReaction mid reaction u))
             <$> (elements (default ∅ (socketsByUser st !! js_key (Message.toUser m))) ++
                  elements (default ∅ (socketsByUser st !! Message.sender m)))
         else
           [Emit (sio_members (Message.roomId m) (io st)) "message_reaction"
              (PReaction mid reaction u)])
    end.
Proof.
  unfold message_reaction, reading.
  destruct (js_find _ _) as [m|]; [|done].
  destruct (inherited_key reaction); [done|].
  unfold seq, modify. simpl.
  destruct (Message.isPrivate m); [|done].
  destruct (_ || _); [done|].
  by rewrite for_each_io_to.
Qed.

(** C6 (amended): on a stored message, toggling the same reaction of the
    same user twice restores the set of (user, kind) reactions of the
    message; the first application flips exactly that pair; and each
    application emits [message_reaction], to the room of a room message,
    and for a private message to the socket.io room named by the id of
    each connection of its target and of its sender.  The reaction kind,
    and for a private message the names of its target and sender, are
    ordinary keys, and the kind lists no user twice, as it does in every
    run of the server. *)
Theorem C6_toggle_reaction st socket mid reaction u m0 :
  js_find (has_id mid) (messages st) = Some m0 →
  NoDup (default [] (Message.reactions m0 !! reaction)) →
  inherited_key reaction = false →
  Message.isPrivate m0 &&
    (inherited_key (js_key (Message.toUser m0)) || inherited_key (Message.sender m0))
    = false →
  let r1 := message_reaction socket mid reaction u st in
  let r2 := message_reaction socket mid reaction u r1.1 in
  let notice :=
    if Message.isPrivate m0 then
      (λ sid, Emit (sio_members sid (io st)) "message_reaction"
                (PReaction mid reaction u))
        <$> (elements (default ∅ (socketsByUser st !! js_key (Message.toUser m0))) ++
             elements (default ∅ (socketsByUser st !! Message.sender m0)))
    else
      [Emit (sio_members (Message.roomId m0) (io st)) "message_reaction"
         (PReaction mid reaction u)] in
  ∃ m1 m2,
    js_find (has_id mid) (messages r1.1) = Some m1 ∧
    js_find (has_id mid) (messages r2.1) = Some m2 ∧
    (reacted m1 reaction u ↔ ¬ reacted m0 reaction u) ∧
    (∀ k v, k ≠ reaction ∨ v ≠ u → (reacted m1 k v ↔ reacted m0 k v)) ∧
    (∀ k v, reacted m2 k v ↔ reacted m0 k v) ∧
    r1.2 = notice ∧ r2.2 = notice.
Proof.
  intros Hm Hnd Hkind Hparties r1 r2 notice.
  assert (Hr1 : r1 = (set_messages (js_mutate_found (has_id mid)
                                      (toggle_reaction reaction u)) st, notice)).
  { subst r1 notice. rewrite message_reaction_run, Hm, Hkind.
    destruct (Message.isPrivate m0); simpl in Hparties; [|done].
    by rewrite Hparties. }
  assert (Hm1 : js_find (has_id mid) (messages r1.1)
                = Some (toggle_reaction reaction u m0)).
  { rewrite Hr1. cbn [fst messages set_messages].
    rewrite js_find_mutate by done. by rewrite Hm. }
  assert (Hr2 : r2 = (set_messages (js_mutate_found (has_id mid)
                                      (toggle_reaction reaction u)) r1.1, notice)).
  { subst r2. rewrite message_reaction_run, Hm1, Hkind. rewrite Hr1.
    subst notice. cbn [fst io socketsByUser set_messages toggle_reaction
                       Message.isPrivate Message.toUser Message.sender
                       Message.roomId Message.with_reactions].
    destruct (Message.isPrivate m0); simpl in Hparties; [|done].
    by rewrite Hparties. }
  exists (toggle_reaction reaction u m0),
         (toggle_reaction reaction u (toggle_reaction reaction u m0)).
  split; [done|]. split.
  { rewrite Hr2. cbn [fst messages set_messages].
    rewrite js_find_mutate by done. by rewrite Hm1. }
  split.
  { rewrite reacted_toggle_reaction by done. by rewrite bool_decide_true. }
  split.
  { intros k v Hkv. rewrite reacted_toggle_reaction by done.
    rewrite bool_decide_false; [done|]. intros [-> ->]. by destruct Hkv. }
  split; [|by rewrite Hr1, Hr2].
  intros k v.
  pose proof (reacted_toggle_reaction _ reaction u k v
                (toggle_reaction_NoDup m0 reaction u Hnd)) as H2.
  pose proof (reacted_toggle_reaction m0 reaction u k v Hnd) as H1.
  destruct (bool_decide (k = reaction ∧ v = u)); [|tauto].
  destruct (decide (v ∈ default [] (Message.reactions m0 !! k))) as [Hin|Hin];
    unfold reacted in *; tauto.
Qed.

Lemma C6_toggle_reaction_witness :
  js_find (has_id (fresh_id fr0)) (messages general)
    = Some (createMessage fr0 (Some "hi") "alice" "s1" (Some "general") None None None) ∧
  NoDup (default [] (Message.reactions
           (createMessage fr0 (Some "hi") "alice" "s1" (Some "general") None None None)
           !! "like")) ∧
  inherited_key "like" = false ∧
  ∃ m1 m2,
    js_find (has_id (fresh_id fr0))
      (messages (message_reaction "s5" (fresh_id fr0) "like" "bob" general).1)
      = Some m1 ∧
    js_find (has_id (fresh_id fr0))
      (messages (message_reaction "s5" (fresh_id fr0) "like" "bob"
                   (message_reaction "s5" (fresh_id fr0) "like" "bob" general).1).1)
      = Some m2 ∧
    reacted m1 "like" "bob" ∧
    Message.reactions m2 = {["like" := []]}.
Proof.
  split; [reflexivity|]. split; [apply NoDup_nil_2|]. split; [reflexivity|].
  destruct (C6_toggle_reaction general "s5" (fresh_id fr0) "like" "bob"
              (createMessage fr0 (Some "hi") "alice" "s1" (Some "general") None None None))
    as (m1 & m2 & H1 & H2 & H3 & _);
    [reflexivity | apply NoDup_nil_2 | reflexivity | reflexivity |].
  exists m1, m2. split; [exact H1|]. split; [exact H2|]. split.
  - apply H3. unfold reacted. simpl. apply not_elem_of_nil.
  - vm_compute in H2. injection H2 as <-. reflexivity.
Defined.

(** C6, as stated, fails.  A reaction kind that names a property of
    [Object.prototype] is not toggled: [m.reactions[reaction].indexOf] is
    not a function, and the handler throws before it adds the pair or
    emits anything.  And two toggles do not give the reactions object its
    prior value: a kind that was absent stays, with an empty list, and a
    user removed and added again moves to the end of the list. *)
Lemma C6_counterexample :
  let m0 := createMessage fr0 (Some "hi") "alice" "s1" (Some "general") None None None in
  let twice r u m := toggle_reaction r u (toggle_reaction r u m) in
  js_find (has_id (fresh_id fr0)) (messages general) = Some m0 ∧
  message_reaction "s5" (fresh_id fr0) "constructor" "bob" general = (general, [Throw]) ∧
  Message.reactions m0 = ∅ ∧
  Message.reactions (twice "like" "bob" m0) = {["like" := []]} ∧
  Message.reactions
    (twice "like" "bob" (toggle_reaction "like" "carol" (toggle_reaction "like" "bob" m0)))
    = {["like" := ["carol"; "bob"]]}.
Proof. cbv zeta. repeat split; vm_compute; reflexivity. Qed.

(** ** Joining and leaving rooms *)

Lemma for_each_cons_fst {St Act A} (body : A → Cmd St Act) x l st :
  (for_each (x :: l) body st).1 = (for_each l body (body x st).1).1.
Proof.
  change (for_each (x :: l) body) with (seq (body x) (for_each l body)).
  apply seq_fst.
Qed.

Lemma truthy_Some r : r ≠ EmptyString → truthy (Some r) = true.
Proof. intros. unfold truthy. by rewrite bool_decide_true. Qed.

Lemma join_room_run st socket r :
  r ≠ EmptyString →
  (join_room socket (Some r) st).1 =
    if inherited_key r then set_rooms (own_inherited r) (set_io (sio_join socket r) st)
    else set_rooms (λ rs, <[r := {[socket]} ∪ default ∅ (rs !! r)]> rs)
           (set_io (sio_join socket r) st).
Proof.
  intros Hr. unfold join_room. rewrite truthy_Some by done.
  change (default EmptyString (Some r)) with r. by destruct (inherited_key r).
Qed.

Lemma leave_room_run st socket r :
  r ≠ EmptyString →
  (leave_room socket (Some r) st).1 =
    if inherited_key r then set_io (sio_leave socket r) st
    else set_rooms (alter (λ s, s ∖ {[socket]}) r) (set_io (sio_leave socket r) st).
Proof.
  intros Hr. unfold leave_room. rewrite truthy_Some by done.
  change (default EmptyString (Some r)) with r. by destruct (inherited_key r).
Qed.

Lemma elem_of_insert_union (m : gmap string (gset string)) r r' (c socket : string) :
  bool_decide (c ∈ default ∅ (<[r := {[socket]} ∪ default ∅ (m !! r)]> m !! r')) =
    if bool_decide (c = socket ∧ r' = r) then true
    else bool_decide (c ∈ default ∅ (m !! r')).
Proof.
  destruct (decide (r' = r)) as [->|Hne].
  - rewrite lookup_insert_eq. simpl.
    destruct (decide (c = socket)) as [->|Hc].
    + rewrite !bool_decide_true; [done|done|].
      apply elem_of_union_l, elem_of_singleton. done.
    + rewrite (bool_decide_false (_ ∧ _)) by (by intros [? _]).
      apply bool_decide_ext. rewrite elem_of_union, elem_of_singleton. tauto.
  - rewrite lookup_insert_ne by done.
    by rewrite (bool_decide_false (_ ∧ _)) by (by intros [_ ?]).
Qed.

Lemma elem_of_alter_difference (m : gmap string (gset string)) r r' (c socket : string) :
  bool_decide (c ∈ default ∅ (alter (λ s, s ∖ {[socket]}) r m !! r')) =
    if bool_decide (c = socket ∧ r' = r) then false
    else bool_decide (c ∈ default ∅ (m !! r')).
Proof.
  destruct (decide (r' = r)) as [->|Hne].
  - rewrite lookup_alter_eq.
    destruct (m !! r) as [s|]; simpl.
    + destruct (decide (c = socket)) as [->|Hc].
      * rewrite (bool_decide_true (_ ∧ _)) by done.
        apply bool_decide_false. rewrite elem_of_difference, elem_of_singleton. tauto.
      * rewrite (bool_decide_false (_ ∧ _)) by (by intros [? _]).
        apply bool_decide_ext. rewrite elem_of_difference, elem_of_singleton. tauto.
    + rewrite (bool_decide_false (c ∈ ∅)) by apply not_elem_of_empty.
      by destruct (bool_decide _).
  - rewrite lookup_alter_ne by done.
    by rewrite (bool_decide_false (_ ∧ _)) by (by intros [_ ?]).
Qed.

Lemma rooms_elem_of_insert_union (rs : Rooms) r r' (c socket : string) :
  inherited_key r = false →
  bool_decide (c ∈ default ∅ (<[r := {[socket]} ∪ default ∅ (rs !! r)]> rs !! r')) =
    if bool_decide (c = socket ∧ r' = r) then true
    else bool_decide (c ∈ default ∅ (rs !! r')).
Proof.
  intros Hr. destruct (decide (r' = r)) as [->|Hne].
  - rewrite rooms_lookup_insert_eq by done. simpl.
    destruct (decide (c = socket)) as [->|Hc].
    + rewrite !bool_decide_true; [done|done|].
      apply elem_of_union_l, elem_of_singleton. done.
    + rewrite (bool_decide_false (_ ∧ _)) by (by intros [? _]).
      apply bool_decide_ext. rewrite elem_of_union, elem_of_singleton. tauto.
  - rewrite rooms_lookup_insert_ne by done.
    by rewrite (bool_decide_false (_ ∧ _)) by (by intros [_ ?]).
Qed.

Lemma rooms_elem_of_alter_difference (rs : Rooms) r r' (c socket : string) :
  bool_decide (c ∈ default ∅ (alter (λ s, s ∖ {[socket]}) r rs !! r')) =
    if bool_decide (c = socket ∧ r' = r) then false
    else bool_decide (c ∈ default ∅ (rs !! r')).
Proof.
  destruct (decide (r' = r)) as [->|Hne].
  - rewrite rooms_lookup_alter_eq.
    destruct (rs !! r) as [s|]; simpl.
    + destruct (decide (c = socket)) as [->|Hc].
      * rewrite (bool_decide_true (_ ∧ _)) by done.
        apply bool_decide_false. rewrite elem_of_difference, elem_of_singleton. tauto.
      * rewrite (bool_decide_false (_ ∧ _)) by (by intros [? _]).
        apply bool_decide_ext. rewrite elem_of_difference, elem_of_singleton. tauto.
    + rewrite (bool_decide_false (c ∈ ∅)) by apply not_elem_of_empty.
      by destruct (bool_decide _).
  - rewrite rooms_lookup_alter_ne by done.
    by rewrite (bool_decide_false (_ ∧ _)) by (by intros [_ ?]).
Qed.

Lemma join_room_in_sio_room st socket r c r' :
  r ≠ EmptyString →
  in_sio_room c r' (join_room socket (Some r) st).1 =
    if bool_decide (c = socket ∧ r' = r) then true else in_sio_room c r' st.
Proof.
  intros Hr. rewrite join_room_run by done. unfold in_sio_room, sio_members.
  destruct (inherited_key r); apply elem_of_insert_union.
Qed.

Lemma leave_room_in_sio_room st socket r c r' :
  r ≠ EmptyString →
  in_sio_room c r' (leave_room socket (Some r) st).1 =
    if bool_decide (c = socket ∧ r' = r) then false else in_sio_room c r' st.
Proof.
  intros Hr. rewrite leave_room_run by done. unfold in_sio_room, sio_members.
  destruct (inherited_key r); apply elem_of_alter_difference.
Qed.

Lemma join_room_in_room st socket r c r' :
  r ≠ EmptyString →
  in_room c r' (join_room socket (Some r) st).1 =
    if bool_decide (c = socket ∧ r' = r) && negb (inherited_key r) then true
    else in_room c r' st.
Proof.
  intros Hr. rewrite join_room_run by done. unfold in_room.
  destruct (inherited_key r) eqn:Hk; simpl.
  - by rewrite andb_false_r, rooms_lookup_own_inherited.
  - rewrite andb_true_r. by apply rooms_elem_of_insert_union.
Qed.

Lemma leave_room_in_room st socket r c r' :
  r ≠ EmptyString →
  in_room c r' (leave_room socket (Some r) st).1 =
    if bool_decide (c = socket ∧ r' = r) && negb (inherited_key r) then false
    else in_room c r' st.
Proof.
  intros Hr. rewrite leave_room_run by done. unfold in_room.
  destruct (inherited_key r); simpl.
  - by rewrite andb_false_r.
  - rewrite andb_true_r. apply rooms_elem_of_alter_difference.
Qed.

Lemma insert_union_id (m : gmap string (gset string)) r (socket : string) :
  socket ∈ default ∅ (m !! r) →
  <[r := {[socket]} ∪ default ∅ (m !! r)]> m = m.
Proof.
  intros Hin. destruct (m !! r) as [s|] eqn:Hs;
    [|by apply not_elem_of_empty in Hin].
  simpl in *. apply insert_id. rewrite Hs. f_equal.
  apply set_eq. intros x. rewrite elem_of_union, elem_of_singleton.
  split; [tauto | intros [->|?]; done].
Qed.

Lemma alter_difference_id (m : gmap string (gset string)) r (socket : string) :
  socket ∉ default ∅ (m !! r) → alter (λ s, s ∖ {[socket]}) r m = m.
Proof.
  intros Hni. apply map_eq. intros k.
  destruct (decide (k = r)) as [->|Hk].
  - rewrite lookup_alter_eq. destruct (m !! r) as [s|]; [|done]. simpl in *.
    f_equal. apply set_eq. intros x.
    rewrite elem_of_difference, elem_of_singleton.
    split; [tauto | intros Hx; split; [done | by intros ->]].
  - by rewrite lookup_alter_ne.
Qed.

Lemma rooms_insert_union_id (rs : Rooms) r (socket : string) :
  socket ∈ default ∅ (rs !! r) →
  <[r := {[socket]} ∪ default ∅ (rs !! r)]> rs = rs.
Proof.
  intros Hin. destruct (rs !! r) as [s|] eqn:Hs;
    [|by apply not_elem_of_empty in Hin].
  simpl in *. unfold insert, rooms_insert. apply JsObj_set_id.
  unfold lookup, rooms_lookup in Hs. destruct (inherited_key r); [done|].
  rewrite Hs. f_equal. apply set_eq. intros x.
  rewrite elem_of_union, elem_of_singleton.
  split; [intros Hx; by right | intros [->|?]; done].
Qed.

Lemma rooms_alter_difference_id (rs : Rooms) r (socket : string) :
  socket ∉ default ∅ (rs !! r) → alter (λ s, s ∖ {[socket]}) r rs = rs.
Proof.
  intros Hni. unfold alter, rooms_alter.
  destruct (rs !! r) as [s|] eqn:Hs; [|done]. simpl in *.
  apply JsObj_set_id. unfold lookup, rooms_lookup in Hs.
  destruct (inherited_key r); [done|]. rewrite Hs. f_equal.
  apply set_eq. intros x. rewrite elem_of_difference, elem_of_singleton.
  split; [intros Hx; split; [done | by intros ->] | tauto].
Qed.

Lemma join_room_joined st socket r :
  r ≠ EmptyString →
  inherited_key r = false →
  in_sio_room socket r st = true →
  in_room socket r st = true →
  join_room socket (Some r) st =
    (st, [Emit (sio_members r (io st)) "room_joined" (PRoom r socket);
          Emit (sio_sids (io st)) "notification" (PNotifRoomJoin r socket);
          Log]).
Proof.
  intros Hr Hk Hsio Hin. unfold join_room. rewrite truthy_Some by done.
  change (default EmptyString (Some r)) with r. rewrite Hk.
  unfold in_room, in_sio_room in *.
  apply bool_decide_eq_true in Hsio. apply bool_decide_eq_true in Hin.
  destruct st as [us sbu ms ty rs [sids srs]].
  unfold seq, modify, io_to, io_emit, reading, tell, set_rooms, set_io,
    sio_join, sio_members in *. simpl in *.
  rewrite insert_union_id by done. by rewrite rooms_insert_union_id.
Qed.

Lemma leave_room_unjoined st socket r :
  r ≠ EmptyString →
  inherited_key r = false →
  in_sio_room socket r st = false →
  in_room socket r st = false →
  leave_room socket (Some r) st =
    (st, [Emit (sio_members r (io st)) "room_left" (PRoom r socket)]).
Proof.
  intros Hr Hk Hsio Hin. unfold leave_room. rewrite truthy_Some by done.
  change (default EmptyString (Some r)) with r. rewrite Hk.
  unfold in_room, in_sio_room in *.
  apply bool_decide_eq_false in Hsio. apply bool_decide_eq_false in Hin.
  destruct st as [us sbu ms ty rs [sids srs]].
  unfold seq, modify, io_to, reading, tell, set_rooms, set_io,
    sio_leave, sio_members in *. simpl in *.
  rewrite alter_difference_id by done. by rewrite rooms_alter_difference_id.
Qed.

(** C7 (amended): after any sequence of joins and leaves of one
    connection on one room with a non-empty id, the connection is a
    member of the socket.io room exactly when the sequence, applied in
    order to the initial membership, says so, and so is it in the [rooms]
    directory when the room id is not a property name of
    [Object.prototype].  The membership of other connections and in other
    rooms is never affected.  Joining a room already joined and leaving a
    room not joined leave every store as it is, but are not silent:
    [room_joined] and the join notification, respectively [room_left],
    are emitted again. *)
Theorem C7_join_leave_net_effect st socket r ops :
  r ≠ EmptyString →
  let st' := (for_each ops (room_op socket r) st).1 in
  in_sio_room socket r st' = net_effect (in_sio_room socket r st) ops ∧
  (inherited_key r = false →
   in_room socket r st' = net_effect (in_room socket r st) ops) ∧
  (∀ c r', c ≠ socket ∨ r' ≠ r →
           in_room c r' st' = in_room c r' st ∧
           in_sio_room c r' st' = in_sio_room c r' st) ∧
  (inherited_key r = false →
   in_sio_room socket r st = true → in_room socket r st = true →
   join_room socket (Some r) st =
     (st, [Emit (sio_members r (io st)) "room_joined" (PRoom r socket);
           Emit (sio_sids (io st)) "notification" (PNotifRoomJoin r socket);
           Log])) ∧
  (inherited_key r = false →
   in_sio_room socket r st = false → in_room socket r st = false →
   leave_room socket (Some r) st =
     (st, [Emit (sio_members r (io st)) "room_left" (PRoom r socket)])).
Proof.
  intros Hr st'. subst st'.
  split; [|split; [|split; [|split]]].
  - revert st. induction ops as [|op ops IH]; intros st; [done|].
    rewrite for_each_cons_fst, IH. simpl. f_equal.
    destruct op; simpl.
    + rewrite join_room_in_sio_room by done. by rewrite bool_decide_true.
    + rewrite leave_room_in_sio_room by done. by rewrite bool_decide_true.
  - intros Hk. revert st. induction ops as [|op ops IH]; intros st; [done|].
    rewrite for_each_cons_fst, IH. simpl. f_equal.
    destruct op; simpl.
    + rewrite join_room_in_room, Hk by done. by rewrite bool_decide_true.
    + rewrite leave_room_in_room, Hk by done. by rewrite bool_decide_true.
  - intros c r' Hne.
    assert (Hb : bool_decide (c = socket ∧ r' = r) = false)
      by (apply bool_decide_eq_false; tauto).
    revert st. induction ops as [|op ops IH]; intros st; [done|].
    rewrite for_each_cons_fst. destruct (IH (room_op socket r op st).1) as [-> ->].
    destruct op; simpl.
    + by rewrite join_room_in_room, join_room_in_sio_room, Hb.
    + by rewrite leave_room_in_room, leave_room_in_sio_room, Hb.
  - intros Hk. by apply join_room_joined.
  - intros Hk. by apply leave_room_unjoined.
Qed.

Lemma C7_join_leave_net_effect_witness :
  "general" ≠ EmptyString ∧
  inherited_key "general" = false ∧
  in_sio_room "s1" "general" (for_each back_and_forth (room_op "s1" "general") lobby).1
    = net_effect (in_sio_room "s1" "general" lobby) back_and_forth ∧
  in_room "s1" "general" (for_each back_and_forth (room_op "s1" "general") lobby).1
    = net_effect (in_room "s1" "general" lobby) back_and_forth ∧
  in_room "s1" "general" (for_each back_and_forth (room_op "s1" "general") lobby).1
    = true.
Proof.
  split; [done|]. split; [reflexivity|].
  destruct (C7_join_leave_net_effect lobby "s1" "general" back_and_forth)
    as (H1 & H2 & _); [done|].
  split; [exact H1|]. split; [apply H2; reflexivity|].
  rewrite (H2 eq_refl). reflexivity.
Defined.

(** C7, as stated, fails.  A room id that names a property of
    [Object.prototype] is joined in socket.io, but the handler throws
    ([rooms[roomId].add] is not a function) before it records the
    membership in [rooms], where it only leaves the inherited function
    under the room id, and before it emits [room_joined]: the directory
    does not show the net effect of the join.  A join of a room already
    joined is not a no-op: the stores are unchanged, but [room_joined]
    and the notification are emitted again.  And a join with an empty
    room id is ignored. *)
Lemma C7_counterexample :
  let res := join_room "s1" (Some "constructor") lobby in
  let again := join_room "s1" (Some "general") general in
  res.2 = [Throw] ∧
  in_sio_room "s1" "constructor" res.1 = true ∧
  in_room "s1" "constructor" res.1 = false ∧
  net_effect (in_room "s1" "constructor" lobby) [Join] = true ∧
  "constructor" ∈ (rooms res.1).*1 ∧
  in_sio_room "s1" "general" general = true ∧
  in_room "s1" "general" general = true ∧
  again.1 = general ∧
  again.2 = [Emit {["s1"; "s5"]} "room_joined" (PRoom "general" "s1");
             Emit {["s1"; "s2"; "s3"; "s4"; "s5"]} "notification"
               (PNotifRoomJoin "general" "s1");
             Log] ∧
  join_room "s1" (Some EmptyString) lobby = (lobby, []).
Proof.
  cbv zeta.
  repeat match goal with |- _ ∧ _ => split end;
    try (vm_compute; reflexivity).
  apply (bool_decide_unpack _). vm_compute. exact I.
Qed.

(** ** Pagination *)

Lemma js_findIndex_ge {A} (p : A → bool) l : -1 ≤ js_findIndex p l.
Proof.
  induction l as [|x l IH]; simpl; [lia|].
  destruct (p x); [lia|]. destruct (js_findIndex p l <? 0) eqn:H; lia.
Qed.

Lemma js_findIndex_found {A} (p : A → bool) l :
  0 ≤ js_findIndex p l →
  ∃ older x newer,
    l = older ++ x :: newer ∧ p x = true ∧
    Forall (λ y, p y = false) older ∧
    Z.of_nat (length older) = js_findIndex p l.
Proof.
  induction l as [|x l IH]; simpl; [lia|].
  destruct (p x) eqn:Hx.
  - intros _. by exists [], x, l.
  - destruct (js_findIndex p l <? 0) eqn:Hneg; [lia|].
    apply Z.ltb_ge in Hneg. intros _.
    destruct (IH Hneg) as (older & y & newer & -> & Hy & Hall & Hlen).
    exists (x :: older), y, newer. repeat split; [done| by constructor |].
    simpl length. lia.
Qed.

Lemma js_slice_last {A} (l : list A) limit :
  0 < limit → js_slice l (- limit) None = drop (length l - Z.to_nat limit) l.
Proof.
  intros Hl. unfold js_slice, js_rel_index.
  replace (- limit <? 0) with true by (symmetry; apply Z.ltb_lt; lia).
  rewrite take_ge by (rewrite length_drop; lia).
  f_equal. lia.
Qed.

Lemma js_slice_before {A} (older : list A) x newer limit :
  0 < limit →
  js_slice (older ++ x :: newer)
    (Z.max 0 (Z.of_nat (length older) - limit)) (Some (Z.of_nat (length older)))
  = drop (length older - Z.to_nat limit) older.
Proof.
  intros Hl. unfold js_slice, js_rel_index.
  rewrite length_app. simpl length.
  replace (Z.max 0 _ <? 0) with false by (symmetry; apply Z.ltb_ge; lia).
  replace (Z.of_nat (length older) <? 0) with false by (symmetry; apply Z.ltb_ge; lia).
  set (n := length older).
  replace (Z.to_nat (Z.min (Z.max 0 (Z.of_nat n - limit)) (Z.of_nat (n + S (length newer)))))
    with (n - Z.to_nat limit)%nat by lia.
  replace (Z.to_nat (Z.min (Z.of_nat n) (Z.of_nat (n + S (length newer))) -
                     Z.min (Z.max 0 (Z.of_nat n - limit)) (Z.of_nat (n + S (length newer)))))
    with (n - (n - Z.to_nat limit))%nat by lia.
  rewrite drop_app_le by lia.
  rewrite take_app_le by (rewrite length_drop; lia).
  apply take_ge. rewrite length_drop. lia.
Qed.

Lemma length_drop_last {A} (l : list A) limit :
  0 < limit → Z.of_nat (length (drop (length l - Z.to_nat limit) l)) ≤ limit.
Proof. intros. rewrite length_drop. lia. Qed.

Lemma load_older_run st socket roomId beforeId limit ack :
  load_older socket roomId beforeId limit ack st =
    (st, if ack then [Ack socket (AckPage (older_page (messages st) roomId beforeId limit))]
         else []).
Proof. unfold load_older, reading, call_ack. by destruct ack. Qed.

Lemma js_findIndex_absent {A} (p : A → bool) l :
  Forall (λ y, p y = false) l → js_findIndex p l = -1.
Proof.
  induction 1 as [|x l Hx _ IH]; [done|]. simpl. by rewrite Hx, IH.
Qed.

Lemma js_findIndex_first {A} (p : A → bool) older x newer :
  Forall (λ y, p y = false) older → p x = true →
  js_findIndex p (older ++ x :: newer) = Z.of_nat (length older).
Proof.
  intros Hall Hx. induction Hall as [|y older Hy _ IH]; simpl.
  - by rewrite Hx.
  - rewrite Hy, IH.
    replace (Z.of_nat (length older) <? 0) with false by (symmetry; apply Z.ltb_ge; lia).
    lia.
Qed.

Lemma has_id_false mid (l : list Message.t) :
  Forall (λ m, Message.id m ≠ mid) l → Forall (λ m, has_id mid m = false) l.
Proof.
  intros H. eapply Forall_impl; [exact H|].
  intros m Hm. by apply bool_decide_eq_false.
Qed.

(** C8 (amended): for a positive page size, the page answered by
    [load_older] holds at most that many messages, all of them non-private
    messages of the room, in stored (oldest-first) order; without a cursor,
    or with a cursor that matches no message of the room, it is the most
    recent messages of the room; with a cursor, it is the messages stored
    immediately before the first message of the room with that id, and so
    it is empty when none was stored before it.  The answer is always an
    acknowledgement with the page. *)
Theorem C8_older_page st socket roomId beforeId limit ack :
  0 < limit →
  let cursor_id := default EmptyString beforeId in
  let hist := room_history (param_default roomId "global") (messages st) in
  let page := older_page (messages st) roomId beforeId (Some limit) in
  load_older socket roomId beforeId (Some limit) ack st =
    (st, if ack then [Ack socket (AckPage page)] else []) ∧
  Z.of_nat (length page) ≤ limit ∧
  page `sublist_of` hist ∧
  (∀ m, m ∈ hist ↔ m ∈ messages st ∧
                    Message.roomId m = param_default roomId "global" ∧
                    Message.isPrivate m = false) ∧
  (truthy beforeId = false →
   page = drop (length hist - Z.to_nat limit) hist) ∧
  (Forall (λ m, Message.id m ≠ cursor_id) hist →
   page = drop (length hist - Z.to_nat limit) hist) ∧
  (truthy beforeId = true →
   ∀ older cursor newer,
     hist = older ++ cursor :: newer →
     Message.id cursor = cursor_id →
     Forall (λ m, Message.id m ≠ cursor_id) older →
     page = drop (length older - Z.to_nat limit) older).
Proof.
  intros Hl cursor_id hist page.
  assert (Hcases :
    page = drop (length hist - Z.to_nat limit) hist ∨
    ∃ older x newer, hist = older ++ x :: newer ∧
      page = drop (length older - Z.to_nat limit) older).
  { subst page. unfold older_page. fold hist. cbn [param_default default].
    destruct (truthy beforeId); [|left; by apply js_slice_last].
    fold cursor_id.
    destruct (js_findIndex (has_id cursor_id) hist =? -1) eqn:Hidx;
      [left; by apply js_slice_last|].
    apply Z.eqb_neq in Hidx.
    pose proof (js_findIndex_ge (has_id cursor_id) hist) as Hge.
    destruct (js_findIndex_found (has_id cursor_id) hist)
      as (older & x & newer & Hh & _ & _ & Hlen); [lia|].
    right. exists older, x, newer. split; [done|].
    rewrite <- Hlen, Hh. by apply js_slice_before. }
  split; [apply load_older_run|].
  split.
  { destruct Hcases as [->|(older & x & newer & _ & ->)]; by apply length_drop_last. }
  split.
  { destruct Hcases as [->|(older & x & newer & -> & ->)].
    - apply sublist_drop.
    - etrans; [apply sublist_drop|]. by apply sublist_inserts_r. }
  split.
  { intros m. subst hist. unfold room_history. rewrite list_elem_of_filter. tauto. }
  split.
  { intros Hb. subst page. unfold older_page. fold hist. rewrite Hb.
    by apply js_slice_last. }
  split.
  { intros Habs. subst page. unfold older_page. fold hist. cbn [param_default default].
    destruct (truthy beforeId); [|by apply js_slice_last].
    fold cursor_id. rewrite js_findIndex_absent by by apply has_id_false.
    by apply js_slice_last. }
  intros Hb older cursor newer Hh Hid Hold.
  subst page. unfold older_page. fold hist. rewrite Hb. cbn [param_default default].
  fold cursor_id. rewrite Hh.
  rewrite js_findIndex_first;
    [| by apply has_id_false | by apply bool_decide_eq_true].
  replace (_ =? -1) with false by (symmetry; apply Z.eqb_neq; lia).
  by apply js_slice_before.
Qed.

Lemma C8_older_page_witness :
  0 < 20 ∧
  older_page (messages general) (Some "general") (Some (fresh_id fr0)) (Some 20) = [] ∧
  Z.of_nat (length (older_page (messages general) (Some "general") None (Some 20))) ≤ 20.
Proof.
  split; [lia|].
  destruct (C8_older_page general "s5" (Some "general") (Some (fresh_id fr0)) 20 true)
    as (_ & _ & _ & _ & _ & _ & Hcur); [lia|].
  destruct (C8_older_page general "s5" (Some "general") None 20 true)
    as (_ & Hlen & _); [lia|].
  split; [|exact Hlen].
  apply (Hcur eq_refl [] (createMessage fr0 (Some "hi") "alice" "s1"
                            (Some "general") None None None) []);
    [reflexivity | reflexivity | constructor].
Defined.

(** C8, as stated, fails for a page size of 0: [slice(-0)] is [slice(0)],
    the whole history of the room. *)
Lemma C8_counterexample :
  older_page (messages general) (Some "general") None (Some 0) =
    [createMessage fr0 (Some "hi") "alice" "s1" (Some "general") None None None] ∧
  length (older_page (messages full) (Some "general") None (Some 0)) = 2000%nat.
Proof. split; vm_compute; reflexivity. Qed.

(** ** Typing state *)

Lemma JsObj_get_delete_ne {V} k k' (o : list (string * V)) :
  k' ≠ k → JsObj.get k' (JsObj.delete k o) = JsObj.get k' o.
Proof.
  intros Hne. induction o as [|[k0 v0] o IH]; simpl; [done|].
  case_bool_decide as Hk; simpl.
  - subst k0. by rewrite bool_decide_false.
  - by rewrite IH.
Qed.

Lemma JsObj_get_values {V} k (v : V) o :
  JsObj.get k o = Some v → v ∈ JsObj.values o.
Proof.
  unfold JsObj.values. induction o as [|[k0 v0] o IH]; simpl; [done|].
  case_bool_decide as Hk.
  - intros [= ->]. apply list_elem_of_here.
  - intros Hget. by apply list_elem_of_further, IH.
Qed.

Lemma typing_run st socket roomId isTyping :
  typing socket roomId isTyping st =
    match JsObj.get socket (users st) with
    | None => (st, [])
    | Some u =>
        let st' := set_typingUsers (if isTyping then JsObj.set socket (username u)
                                    else JsObj.delete socket) st in
        (st', [Emit (sio_members (param_default roomId "global") (io st))
                 "typing_users" (PTypingUsers (JsObj.values (typingUsers st')))])
    end.
Proof. unfold typing, reading. by destruct (JsObj.get _ _). Qed.

Lemma disconnect_unfold st socket :
  disconnect socket st =
    let st0 := set_io (sio_disconnect socket) st in
    match JsObj.get socket (users st) with
    | None => (st0, [Log])
    | Some u =>
        if inherited_key (username u) then (st0, [Throw]) else
        let st1 :=
          set_typingUsers (JsObj.delete socket)
            (set_users (JsObj.delete socket)
               (set_socketsByUser (λ sbu,
                  if bool_decide (sbu !! username u = Some ∅)
                  then delete (username u) sbu else sbu)
                  (set_socketsByUser (alter (js_set_delete socket) (username u)) st0))) in
        let cleaned := delete_from_each socket (js_own_keys (rooms st)) (rooms st) in
        let st' := set_rooms (λ _, cleaned.1) st1 in
        (st', if cleaned.2 then
                [Emit (sio_sids (io st')) "user_left" (PUser (username u) socket);
                 Emit (sio_sids (io st')) "user_list" (PUserList (getUserList st'));
                 Emit (sio_sids (io st')) "typing_users"
                   (PTypingUsers (JsObj.values (typingUsers st')));
                 Log]
              else [Throw])
    end.
Proof.
  unfold disconnect, seq, modify, reading. cbn [fst snd users set_io].
  destruct (JsObj.get socket (users st)) as [u|]; [|done].
  destruct (inherited_key (username u)); [done|].
  cbn [rooms set_typingUsers set_users set_socketsByUser set_io].
  by destruct (delete_from_each socket (js_own_keys (rooms st)) (rooms st)).2.
Qed.

Lemma disconnect_typing st socket :
  typingUsers (disconnect socket st).1 =
    match JsObj.get socket (users st) with
    | None => typingUsers st
    | Some u => if inherited_key (username u) then typingUsers st
                else JsObj.delete socket (typingUsers st)
    end ∧
  io (disconnect socket st).1 = sio_disconnect socket (io st) ∧
  ∀ to names,
    Emit to "typing_users" (PTypingUsers names) ∈ (disconnect socket st).2 →
    to = sio_sids (io (disconnect socket st).1) ∧
    names = JsObj.values (typingUsers (disconnect socket st).1).
Proof.
  rewrite disconnect_unfold. cbv zeta.
  destruct (JsObj.get socket (users st)) as [u|]; simpl.
  - destruct (inherited_key (username u)); simpl.
    { split; [done|]. split; [done|]. intros to names Hin.
      apply elem_of_cons in Hin as [Hin|Hin]; [discriminate|].
      by apply elem_of_nil in Hin. }
    split; [done|]. split; [done|]. intros to names Hin.
    destruct (delete_from_each socket (js_own_keys (rooms st)) (rooms st)).2.
    + repeat (apply elem_of_cons in Hin as [Hin|Hin]; [try discriminate|]).
      * by injection Hin as -> ->.
      * by apply elem_of_nil in Hin.
    + apply elem_of_cons in Hin as [Hin|Hin]; [discriminate|].
      by apply elem_of_nil in Hin.
  - split; [done|]. split; [done|]. intros to names Hin.
    apply elem_of_cons in Hin as [Hin|Hin]; [discriminate|].
    by apply elem_of_nil in Hin.
Qed.

(** C9 (amended): every [typing_users] event carries the complete current
    list of typing display names of the server, a snapshot and not a
    delta; the list is not restricted to the room the event is sent to:
    whoever else is recorded as typing, in whatever room, is in it. *)
Theorem C9_typing_snapshot :
  (∀ st socket roomId isTyping u,
      JsObj.get socket (users st) = Some u →
      let res := typing socket roomId isTyping st in
      res.2 = [Emit (sio_members (param_default roomId "global") (io st))
                 "typing_users" (PTypingUsers (JsObj.values (typingUsers res.1)))] ∧
      (isTyping = true → JsObj.get socket (typingUsers res.1) = Some (username u)) ∧
      (∀ sid, sid ≠ socket →
              JsObj.get sid (typingUsers res.1) = JsObj.get sid (typingUsers st)) ∧
      (∀ sid name, sid ≠ socket → JsObj.get sid (typingUsers st) = Some name →
                   name ∈ JsObj.values (typingUsers res.1))) ∧
  (∀ st socket to names,
      let res := disconnect socket st in
      Emit to "typing_users" (PTypingUsers names) ∈ res.2 →
      to = sio_sids (io res.1) ∧
      names = JsObj.values (typingUsers res.1) ∧
      (∀ sid name, sid ≠ socket → JsObj.get sid (typingUsers st) = Some name →
                   name ∈ names)).
Proof.
  split.
  - intros st socket roomId isTyping u Hu res. subst res.
    rewrite typing_run, Hu. cbn [fst snd typingUsers set_typingUsers].
    split; [done|].
    assert (Hother : ∀ sid, sid ≠ socket →
      JsObj.get sid ((if isTyping then JsObj.set socket (username u)
                      else JsObj.delete socket) (typingUsers st))
      = JsObj.get sid (typingUsers st)).
    { intros sid Hne. destruct isTyping;
        [by apply JsObj_get_set_ne | by apply JsObj_get_delete_ne]. }
    split; [intros ->; apply JsObj_get_set_eq|].
    split; [exact Hother|].
    intros sid name Hne Hget. apply (JsObj_get_values sid).
    by rewrite Hother.
  - intros st socket to names res Hin. subst res.
    destruct (disconnect_typing st socket) as (Hty & _ & Hemit).
    destruct (Hemit to names Hin) as [-> ->].
    split; [done|]. split; [done|].
    intros sid name Hne Hget. apply (JsObj_get_values sid).
    rewrite Hty. destruct (JsObj.get socket (users st)) as [u|]; [|done].
    destruct (inherited_key (username u)); [done|].
    by rewrite JsObj_get_delete_ne.
Qed.

Lemma C9_typing_snapshot_witness :
  JsObj.get "s1" (users two_rooms) = Some (mkUser "alice" "s1") ∧
  "s5" ≠ "s1" ∧
  JsObj.get "s5" (typingUsers two_rooms) = Some "bob" ∧
  "bob" ∈ JsObj.values (typingUsers (typing "s1" (Some "b") true two_rooms).1).
Proof.
  split; [reflexivity|]. split; [done|]. split; [reflexivity|].
  destruct C9_typing_snapshot as [Htyping _].
  destruct (Htyping two_rooms "s1" (Some "b") true (mkUser "alice" "s1"))
    as (_ & _ & _ & Hall); [reflexivity|].
  apply (Hall "s5" "bob"); [done | reflexivity].
Defined.

(** C9, as stated, fails: bob is typing in room "a" and is not a member
    of room "b"; the event emitted to room "b" when alice starts typing
    there lists bob. *)
Lemma C9_counterexample :
  let res := typing "s1" (Some "b") true two_rooms in
  res.2 = [Emit {["s1"]} "typing_users" (PTypingUsers ["bob"; "alice"])] ∧
  (username <$> JsObj.get "s5" (users two_rooms)) = Some "bob" ∧
  in_room "s5" "b" two_rooms = false ∧
  in_sio_room "s5" "b" two_rooms = false.
Proof. cbv zeta. repeat split; vm_compute; reflexivity. Qed.

(** ** The message collection *)

Lemma js_mutate_found_ids (p : Message.t → bool) f l :
  (∀ m, Message.id (f m) = Message.id m) →
  Message.id <$> js_mutate_found p f l = Message.id <$> l.
Proof.
  intros Hf. induction l as [|m l IH]; [done|]. simpl.
  destruct (p m); rewrite !fmap_cons, ?Hf, ?IH; done.
Qed.

Lemma registerUser_messages st socket name :
  messages (registerUser socket name st).1 = messages st.
Proof. unfold registerUser. simpl. by destruct (inherited_key name). Qed.

Lemma send_message_messages st socket payload ack fr :
  messages (send_message socket payload ack fr st).1 =
    match JsObj.get socket (users st) with
    | None => messages st
    | Some user =>
        let msg := createMessage fr (p_text payload) (username user) socket
                     (Some (or_else (p_roomId payload) "global")) None None
                     (or_null (p_fileUrl payload)) in
        let ms := messages st ++ [msg] in
        if 2000 <? Z.of_nat (length ms) then drop 1 ms else ms
    end.
Proof.
  destruct (JsObj.get socket (users st)) as [user|] eqn:Hu.
  - rewrite (send_message_run _ _ _ _ _ _ Hu). cbn [fst].
    rewrite cap_messages_run. cbn [messages set_messages].
    destruct (2000 <? _); [|done].
    by destruct (messages st).
  - unfold send_message, reading. rewrite Hu. by destruct ack.
Qed.

Local Ltac nothing_new := exists []; rewrite app_nil_r.

Lemma other_events_messages st socket e :
  is_send e = false →
  ∃ new, Message.id <$> messages (handle socket e st).1
         = (Message.id <$> messages st) ++ new.
Proof.
  intros He.
  destruct e as [has_token token_user | name | roomId | roomId | |
                 to text fileUrl ack fr | roomId isTyping | mid u | mid reaction u |
                 roomId beforeId limit ack | ]; try discriminate; simpl.
  - nothing_new. unfold on_connection.
    destruct has_token; [|done]. simpl.
    destruct (truthy token_user); [|done].
    rewrite !seq_fst. by rewrite registerUser_messages.
  - nothing_new. unfold user_join.
    destruct (truthy name); [|done]. apply (f_equal (fmap Message.id)).
    apply registerUser_messages.
  - nothing_new. unfold join_room.
    destruct (truthy roomId); [|done]. simpl.
    by destruct (inherited_key _).
  - nothing_new. unfold leave_room.
    destruct (truthy roomId); [|done]. simpl.
    by destruct (inherited_key _).
  - destruct (JsObj.get socket (users st)) as [from|] eqn:Hu.
    + destruct (inherited_key to) eqn:Hto.
      * rewrite (private_message_throws _ _ _ _ _ _ _ _ Hu Hto).
        cbn [fst messages set_messages]. eexists [_]. by rewrite fmap_app.
      * rewrite (private_message_run _ _ _ _ _ _ _ _ Hu Hto).
        cbn [fst messages set_messages]. eexists [_]. by rewrite fmap_app.
    + nothing_new. unfold private_message, reading.
      rewrite Hu. by destruct ack.
  - nothing_new. rewrite typing_run.
    by destruct (JsObj.get _ _).
  - nothing_new. rewrite message_read_run.
    destruct (js_find _ _); [|done]. cbn [fst messages set_messages].
    by apply js_mutate_found_ids.
  - nothing_new. rewrite message_reaction_run.
    destruct (js_find _ _); [|done].
    destruct (inherited_key reaction); [done|]. cbn [fst messages set_messages].
    by apply js_mutate_found_ids.
  - nothing_new. by rewrite load_older_run.
  - nothing_new. rewrite disconnect_unfold. cbv zeta.
    destruct (JsObj.get _ _) as [u0|]; [|done].
    by destruct (inherited_key _).
Qed.

(** C10 (amended): the handlers keep every stored message, in order and
    under its id, with one exception: a [send_message] that makes the
    collection exceed 2000 messages drops the oldest one, and only that
    one.  Every other event leaves the stored ids as they are or appends
    one. *)
Theorem C10_messages_kept st socket e :
  let ids := Message.id <$> messages st in
  let ids' := Message.id <$> messages (handle socket e st).1 in
  (∃ new, ids' = ids ++ new) ∨
  (is_send e = true ∧ 2000 ≤ Z.of_nat (length ids) ∧
   ∃ new, ids' = drop 1 ids ++ [new]).
Proof.
  intros ids ids'. subst ids ids'.
  destruct (is_send e) eqn:He; [|left; by apply other_events_messages].
  destruct e; try discriminate. cbn [handle].
  rewrite send_message_messages.
  destruct (JsObj.get socket (users st)) as [user|];
    [|left; exists []; by rewrite app_nil_r].
  cbv zeta. rewrite length_app. cbn [length].
  destruct (2000 <? _) eqn:Hlen.
  - right. split; [done|]. apply Z.ltb_lt in Hlen.
    rewrite length_fmap. split; [lia|].
    eexists. rewrite fmap_drop, fmap_app. cbn [fmap list_fmap].
    rewrite drop_app_le; [done|]. rewrite length_fmap. lia.
  - left. eexists [_]. by rewrite fmap_app.
Qed.

(** C10, as stated, fails: with 2000 messages stored, the oldest being
    alice's, one more [send_message] removes alice's message. *)
Lemma C10_counterexample :
  let res := send_message "s5" hi true fr1 full in
  length (messages full) = 2000%nat ∧
  Message.id <$> head (messages full) = Some (fresh_id fr0) ∧
  bool_decide (fresh_id fr0 ∈ Message.id <$> messages res.1) = false ∧
  length (messages res.1) = 2000%nat.
Proof. cbv zeta. repeat split; vm_compute; reflexivity. Qed.

(** ** Reaction lists stay duplicate-free in every run *)

Lemma createMessage_wf fr text sender senderId roomId isPrivate toUser fileUrl :
  reactions_wf (createMessage fr text sender senderId roomId isPrivate toUser fileUrl).
Proof. intros kind. simpl. rewrite lookup_empty. apply NoDup_nil_2. Qed.

Lemma toggle_reaction_wf reaction u m :
  reactions_wf m → reactions_wf (toggle_reaction reaction u m).
Proof.
  intros Hm kind. unfold toggle_reaction. simpl.
  destruct (decide (kind = reaction)) as [->|Hne].
  - rewrite lookup_insert_eq. simpl. apply NoDup_toggle, Hm.
  - rewrite lookup_insert_ne by done. apply Hm.
Qed.

Lemma handle_reactions_wf st socket e :
  Forall reactions_wf (messages st) →
  Forall reactions_wf (messages (handle socket e st).1).
Proof.
  intros Hwf.
  destruct e as [has_token token_user | name | roomId | roomId | payload ack fr |
                 to text fileUrl ack fr | roomId isTyping | mid u | mid reaction u |
                 roomId beforeId limit ack | ]; simpl.
  - unfold on_connection. destruct has_token; [|done]. simpl.
    destruct (truthy token_user); [|done].
    rewrite !seq_fst. by rewrite registerUser_messages.
  - unfold user_join. destruct (truthy name); [|done].
    by rewrite registerUser_messages.
  - unfold join_room. destruct (truthy roomId); [|done]. simpl.
    by destruct (inherited_key _).
  - unfold leave_room. destruct (truthy roomId); [|done]. simpl.
    by destruct (inherited_key _).
  - rewrite send_message_messages.
    destruct (JsObj.get socket (users st)); [|done]. cbv zeta.
    assert (Hall : Forall reactions_wf (messages st ++
              [createMessage fr (p_text payload) (username u) socket
                 (Some (or_else (p_roomId payload) "global")) None None
                 (or_null (p_fileUrl payload))])).
    { apply Forall_app. split; [done|]. constructor; [|constructor].
      apply createMessage_wf. }
    destruct (2000 <? _); [by apply Forall_drop | done].
  - destruct (JsObj.get socket (users st)) as [from|] eqn:Hu.
    + assert (Hall : Forall reactions_wf (messages st ++
                [createMessage fr text (username from) socket None
                   (Some true) (Some to) (or_null fileUrl)])).
      { apply Forall_app. split; [done|]. constructor; [|constructor].
        apply createMessage_wf. }
      destruct (inherited_key to) eqn:Hto.
      * by rewrite (private_message_throws _ _ _ _ _ _ _ _ Hu Hto).
      * by rewrite (private_message_run _ _ _ _ _ _ _ _ Hu Hto).
    + unfold private_message, reading. rewrite Hu. by destruct ack.
  - rewrite typing_run. by destruct (JsObj.get _ _).
  - rewrite message_read_run. destruct (js_find _ _); [|done].
    cbn [fst messages set_messages]. by apply js_mutate_found_Forall.
  - rewrite message_reaction_run. destruct (js_find _ _); [|done].
    destruct (inherited_key reaction); [done|].
    cbn [fst messages set_messages].
    apply js_mutate_found_Forall; [|done]. intros m. apply toggle_reaction_wf.
  - by rewrite load_older_run.
  - rewrite disconnect_unfold. cbv zeta.
    destruct (JsObj.get _ _) as [u0|]; [|done].
    by destruct (inherited_key _).
Qed.

Lemma run_reactions_wf evs st :
  Forall reactions_wf (messages st) →
  Forall reactions_wf (messages (run evs st).1).
Proof.
  revert st. induction evs as [|[socket e] evs IH]; intros st Hwf; [done|].
  unfold run. rewrite for_each_cons_fst. apply IH. by apply handle_reactions_wf.
Qed.

(** In every state the server reaches from its initial state, no message
    lists a user twice under a reaction kind. *)
Lemma reachable_reactions_NoDup evs mid m kind :
  js_find (has_id mid) (messages (run evs init).1) = Some m →
  NoDup (default [] (Message.reactions m !! kind)).
Proof.
  intros Hm.
  apply (js_find_Forall _ reactions_wf _ _
           (run_reactions_wf evs init (Forall_nil_2 _)) Hm).
Qed.

(** * Further properties of server/controllers/socketHandlers.js *)

(** ** The user list *)

Lemma getUserList_from_spec seen us :
  NoDup (username <$> getUserList_from seen us) ∧
  (∀ u, u ∈ getUserList_from seen us ↔
        ((username u ∉ seen) ∧
         ∃ pre sid post, us = pre ++ (sid, u) :: post ∧
                         Forall (λ p, username p.2 ≠ username u) pre)).
Proof.
  revert seen. induction us as [|[sid0 u0] us IH]; intros seen.
  - split; [constructor|]. intros u. split; [by intros ?%elem_of_nil|].
    intros (_ & pre & sid & post & Heq & _). by destruct pre.
  - cbn [getUserList_from]. destruct (decide (username u0 ∈ seen)) as [Hin|Hni].
    + rewrite bool_decide_true by done.
      destruct (IH seen) as [Hnd Hiff]. split; [done|].
      intros u. rewrite Hiff. split.
      * intros (Hu & pre & sid & post & -> & Hpre). split; [done|].
        exists ((sid0, u0) :: pre), sid, post. split; [done|].
        constructor; [|done]. simpl. intros Heq. apply Hu. by rewrite <- Heq.
      * intros (Hu & pre & sid & post & Heq & Hpre). split; [done|].
        destruct pre as [|p pre]; simplify_eq/=; [done|].
        apply Forall_cons in Hpre as [_ Hpre]. by exists pre, sid, post.
    + rewrite bool_decide_false by done.
      destruct (IH (username u0 :: seen)) as [Hnd Hiff].
      assert (Hu0 : mkUser (username u0) (uid u0) = u0) by by destruct u0.
      rewrite Hu0. split.
      * rewrite fmap_cons. constructor; [|done].
        intros Hin'. apply list_elem_of_fmap in Hin' as (u & Heq & Hu).
        apply Hiff in Hu as [Hu _]. apply Hu. rewrite Heq. apply list_elem_of_here.
      * intros u. rewrite elem_of_cons, Hiff, not_elem_of_cons. split.
        -- intros [->|((Hne & Hu) & pre & sid & post & -> & Hpre)].
           ++ split; [done|]. by exists [], sid0, us.
           ++ split; [done|]. exists ((sid0, u0) :: pre), sid, post.
              split; [done|]. constructor; [|done]. simpl. congruence.
        -- intros (Hu & pre & sid & post & Heq & Hpre).
           destruct pre as [|p pre]; simplify_eq/=; [by left|].
           apply Forall_cons in Hpre as [Hne Hpre].
           right. split; [split; [simpl in Hne; congruence | done]|].
           by exists pre, sid, post.
Qed.

Lemma first_session_of (us : list (string * User)) name :
  (∃ sid u, (sid, u) ∈ us ∧ username u = name) →
  ∃ pre sid u post, us = pre ++ (sid, u) :: post ∧ username u = name ∧
                    Forall (λ p, username p.2 ≠ name) pre.
Proof.
  induction us as [|[s v] us IH]; intros (sid & u & Hin & Hname).
  - by apply elem_of_nil in Hin.
  - destruct (decide (username v = name)) as [Hv|Hv].
    + exists [], s, v, us. split; [done|]. split; [done|constructor].
    + apply elem_of_cons in Hin as [Heq|Hin]; [by simplify_eq|].
      destruct IH as (pre & sid' & u' & post & -> & Hu' & Hpre); [by eauto|].
      exists ((s, v) :: pre), sid', u', post. split; [done|]. split; [done|].
      by constructor.
Qed.

(** X1: the user list names every registered user exactly once; the entry
    of a user is the session of that user that was registered first. *)
Theorem getUserList_first_sessions st :
  NoDup (username <$> getUserList st) ∧
  (∀ name, name ∈ (username <$> getUserList st) ↔
           ∃ sid u, (sid, u) ∈ users st ∧ username u = name) ∧
  (∀ u, u ∈ getUserList st ↔
        ∃ pre sid post, users st = pre ++ (sid, u) :: post ∧
                        Forall (λ p, username p.2 ≠ username u) pre).
Proof.
  unfold getUserList. destruct (getUserList_from_spec [] (users st)) as [Hnd Hiff].
  assert (Hiff' : ∀ u, u ∈ getUserList_from [] (users st) ↔
        ∃ pre sid post, users st = pre ++ (sid, u) :: post ∧
                        Forall (λ p, username p.2 ≠ username u) pre).
  { intros u. rewrite Hiff. split; [by intros [_ ?]|].
    intros H. split; [apply not_elem_of_nil | done]. }
  split; [done|]. split; [|done].
  intros name. rewrite list_elem_of_fmap. split.
  - intros (u & -> & Hu). apply Hiff' in Hu as (pre & sid & post & Heq & _).
    exists sid, u. split; [|done]. rewrite Heq.
    apply elem_of_app. right. apply list_elem_of_here.
  - intros Hex. apply first_session_of in Hex
      as (pre & sid & u & post & Heq & <- & Hpre).
    exists u. split; [done|]. apply Hiff'. by exists pre, sid, post.
Qed.

(** ** Disconnecting *)

Lemma JsObj_get_delete_eq {V} k (o : list (string * V)) :
  JsObj.get k (JsObj.delete k o) = None.
Proof.
  induction o as [|[k0 v0] o IH]; simpl; [done|].
  case_bool_decide as Hk; simpl; [done|]. by rewrite bool_decide_false.
Qed.

Lemma disconnect_run st socket u :
  JsObj.get socket (users st) = Some u →
  inherited_key (username u) = false →
  disconnect socket st =
    let st1 := set_io (sio_disconnect socket) st in
    let st2 := set_socketsByUser (alter (js_set_delete socket) (username u)) st1 in
    let st3 := set_socketsByUser (λ sbu,
                 if bool_decide (sbu !! username u = Some ∅)
                 then delete (username u) sbu else sbu) st2 in
    let cleaned := delete_from_each socket (js_own_keys (rooms st)) (rooms st) in
    let st' := set_rooms (λ _, cleaned.1)
                 (set_typingUsers (JsObj.delete socket)
                    (set_users (JsObj.delete socket) st3)) in
    (st', if cleaned.2 then
            [Emit (sio_sids (io st')) "user_left" (PUser (username u) socket);
             Emit (sio_sids (io st')) "user_list" (PUserList (getUserList st'));
             Emit (sio_sids (io st')) "typing_users"
               (PTypingUsers (JsObj.values (typingUsers st')));
             Log]
          else [Throw]).
Proof. intros Hu Hk. by rewrite disconnect_unfold, Hu, Hk. Qed.

(** The loop over [Object.values(rooms)]. *)
Lemma js_own_keys_elem_of {V} (o : list (string * V)) k :
  k ∈ js_own_keys o ↔ k ∈ o.*1.
Proof.
  unfold js_own_keys. rewrite elem_of_app, merge_sort_Permutation.
  rewrite !list_elem_of_filter. destruct (array_index k) as [n|].
  - split; [intros [[_ ?]|[? _]]; done | intros ?; left; by split; [eexists|]].
  - split; [intros [[[? ?] _]|[_ ?]]; done | intros ?; by right].
Qed.

Lemma delete_from_each_completed sid keys (rs : Rooms) :
  (delete_from_each sid keys rs).2 = forallb (λ k, negb (inherited_key k)) keys.
Proof.
  revert rs. induction keys as [|k keys IH]; intros rs; [done|]. simpl.
  destruct (inherited_key k); [done|]. apply IH.
Qed.

Lemma delete_from_each_reached sid keys (rs : Rooms) r :
  Forall (λ k, inherited_key k = false) keys →
  (delete_from_each sid keys rs).1 !! r =
    if bool_decide (r ∈ keys) then (λ s, s ∖ {[sid]}) <$> rs !! r else rs !! r.
Proof.
  intros Hall. revert rs. induction Hall as [|k keys Hk Hall IH]; intros rs; [done|].
  simpl. rewrite Hk, IH. destruct (decide (r = k)) as [->|Hne].
  - rewrite rooms_lookup_alter_eq.
    rewrite (bool_decide_true (k ∈ k :: keys)) by apply list_elem_of_here.
    case_bool_decide; [|done]. destruct (rs !! k) as [s|]; [|done]. simpl.
    f_equal. apply set_eq. intros x. rewrite !elem_of_difference. tauto.
  - rewrite rooms_lookup_alter_ne by done.
    apply (f_equal (λ b : bool, if b then _ else _)).
    apply bool_decide_ext. rewrite elem_of_cons. tauto.
Qed.

Lemma delete_from_each_lookup sid keys (rs : Rooms) r :
  (delete_from_each sid keys rs).1 !! r = rs !! r ∨
  (delete_from_each sid keys rs).1 !! r = (λ s, s ∖ {[sid]}) <$> rs !! r.
Proof.
  revert rs. induction keys as [|k keys IH]; intros rs; [by left|]. simpl.
  destruct (inherited_key k); [by left|].
  destruct (decide (r = k)) as [->|Hne].
  - right. destruct (IH (alter (λ s, s ∖ {[sid]}) k rs)) as [->| ->];
      rewrite rooms_lookup_alter_eq; [done|].
    destruct (rs !! k) as [s|]; [|done]. simpl.
    f_equal. apply set_eq. intros x. rewrite !elem_of_difference. tauto.
  - destruct (IH (alter (λ s, s ∖ {[sid]}) k rs)) as [->| ->];
      rewrite rooms_lookup_alter_ne by done; [by left | by right].
Qed.

Lemma delete_from_each_others sid keys (rs : Rooms) r c :
  c ≠ sid →
  c ∈ default ∅ ((delete_from_each sid keys rs).1 !! r) ↔ c ∈ default ∅ (rs !! r).
Proof.
  intros Hc. destruct (delete_from_each_lookup sid keys rs r) as [->| ->]; [done|].
  destruct (rs !! r) as [s|]; simpl; [|done].
  rewrite elem_of_difference, elem_of_singleton. tauto.
Qed.

Lemma delete_from_each_is_Some sid keys (rs : Rooms) r :
  is_Some ((delete_from_each sid keys rs).1 !! r) ↔ is_Some (rs !! r).
Proof.
  destruct (delete_from_each_lookup sid keys rs r) as [->| ->]; [done|].
  by rewrite fmap_is_Some.
Qed.

Lemma forallb_own_keys {V} (p : string → bool) (o : list (string * V)) :
  forallb p (js_own_keys o) = forallb p o.*1.
Proof.
  apply eq_true_iff_eq. rewrite !forallb_forall. split.
  - intros H k Hk. apply H, list_elem_of_In, js_own_keys_elem_of, list_elem_of_In, Hk.
  - intros H k Hk. apply H, list_elem_of_In, js_own_keys_elem_of, list_elem_of_In, Hk.
Qed.

(** Whether the loop completes: [rooms] holds only Sets. *)
Lemma disconnect_loop_completed sid (rs : Rooms) :
  (delete_from_each sid (js_own_keys rs) rs).2 =
    forallb (λ k, negb (inherited_key k)) rs.*1.
Proof. by rewrite delete_from_each_completed, forallb_own_keys. Qed.

Lemma disconnect_loop_cleans sid (rs : Rooms) r :
  forallb (λ k, negb (inherited_key k)) rs.*1 = true →
  (delete_from_each sid (js_own_keys rs) rs).1 !! r = (λ s, s ∖ {[sid]}) <$> rs !! r.
Proof.
  intros Hall. rewrite <- forallb_own_keys in Hall.
  rewrite delete_from_each_reached.
  - case_bool_decide as Hin; [done|].
    destruct (rs !! r) as [s|] eqn:Hs; [|done].
    destruct Hin. apply js_own_keys_elem_of. by eapply rooms_lookup_elem_of_keys.
  - apply Forall_forall. intros k Hk.
    rewrite forallb_forall in Hall. apply list_elem_of_In, Hall in Hk.
    by apply negb_true_iff.
Qed.

Lemma elem_of_after_disconnect (sbu : gmap string JsSet) name0 name (socket c : string) :
  c ∈ default ∅ ((if bool_decide (alter (js_set_delete socket) name0 sbu !! name0 = Some ∅)
                  then delete name0 (alter (js_set_delete socket) name0 sbu)
                  else alter (js_set_delete socket) name0 sbu) !! name) ↔
  c ∈ default ∅ (sbu !! name) ∧ ¬ (name = name0 ∧ c = socket).
Proof.
  destruct (decide (name = name0)) as [->|Hne].
  - case_bool_decide as Hempty.
    + rewrite lookup_delete_eq. simpl. rewrite lookup_alter_eq in Hempty.
      destruct (sbu !! name0) as [s|]; simpl in *; [|done].
      injection Hempty as Hempty.
      split; [by intros ?%not_elem_of_nil|].
      intros [Hc Hn]. destruct (decide (c = socket)) as [->|Hcs]; [by destruct Hn|].
      assert (c ∈ js_set_delete socket s) as Hin by by apply elem_of_js_set_delete.
      rewrite Hempty in Hin. by apply not_elem_of_nil in Hin.
    + rewrite lookup_alter_eq. destruct (sbu !! name0) as [s|]; simpl.
      * rewrite elem_of_js_set_delete. tauto.
      * split; [by intros ?%not_elem_of_nil | by intros [?%not_elem_of_nil _]].
  - case_bool_decide.
    + rewrite lookup_delete_ne, lookup_alter_ne by done. tauto.
    + rewrite lookup_alter_ne by done. tauto.
Qed.

(** X2: when a registered connection disconnects, its session, its typing
    entry, its entry under its user name and all its memberships in
    socket.io's rooms are removed, and nothing of any other connection is
    touched.  Its memberships recorded in [rooms] are all removed when
    [rooms] holds only Sets, that is, when no room named like a property
    of [Object.prototype] has been joined. *)
Theorem disconnect_cleans st socket u :
  JsObj.get socket (users st) = Some u →
  inherited_key (username u) = false →
  let st' := (disconnect socket st).1 in
  JsObj.get socket (users st') = None ∧
  JsObj.get socket (typingUsers st') = None ∧
  (socket ∉ default ∅ (socketsByUser st' !! username u)) ∧
  (socket ∉ sio_sids (io st')) ∧
  (∀ r, in_sio_room socket r st' = false) ∧
  (forallb (λ k, negb (inherited_key k)) (rooms st).*1 = true →
   ∀ r, in_room socket r st' = false) ∧
  (∀ c, c ≠ socket →
        JsObj.get c (users st') = JsObj.get c (users st) ∧
        JsObj.get c (typingUsers st') = JsObj.get c (typingUsers st) ∧
        (∀ name, c ∈ default ∅ (socketsByUser st' !! name) ↔
                 c ∈ default ∅ (socketsByUser st !! name)) ∧
        (∀ r, in_room c r st' = in_room c r st ∧
              in_sio_room c r st' = in_sio_room c r st)).
Proof.
  intros Hu Hk st'. subst st'. rewrite (disconnect_run _ _ _ Hu Hk).
  cbn [fst users typingUsers socketsByUser rooms io set_io set_socketsByUser
       set_users set_typingUsers set_rooms sio_disconnect sio_sids sio_rooms].
  assert (Hmem : ∀ (m : gmap string (gset string)) r c,
    c ∈ default ∅ ((λ s : gset string, s ∖ {[socket]}) <$> m !! r) ↔
    c ∈ default ∅ (m !! r) ∧ c ≠ socket).
  { intros m r c. destruct (m !! r) as [s|]; simpl.
    - by rewrite elem_of_difference, elem_of_singleton.
    - split; [by intros ?%not_elem_of_empty | by intros [?%not_elem_of_empty _]]. }
  split; [apply JsObj_get_delete_eq|]. split; [apply JsObj_get_delete_eq|].
  split; [rewrite elem_of_after_disconnect; tauto|].
  split; [rewrite elem_of_difference, elem_of_singleton; tauto|].
  split; [|split].
  - intros r. unfold in_sio_room, sio_members. simpl. rewrite lookup_fmap.
    apply bool_decide_eq_false. rewrite Hmem. tauto.
  - intros Hsets r. unfold in_room. simpl.
    rewrite (disconnect_loop_cleans _ _ _ Hsets).
    apply bool_decide_eq_false. destruct (rooms st !! r) as [s|]; simpl.
    + rewrite elem_of_difference, elem_of_singleton. tauto.
    + apply not_elem_of_empty.
  - intros c Hc.
    split; [by apply JsObj_get_delete_ne|]. split; [by apply JsObj_get_delete_ne|].
    split.
    + intros name. rewrite elem_of_after_disconnect. tauto.
    + intros r. unfold in_room, in_sio_room, sio_members. simpl. split.
      * apply bool_decide_ext. by apply delete_from_each_others.
      * rewrite lookup_fmap. apply bool_decide_ext. rewrite Hmem. tauto.
Qed.

Lemma disconnect_cleans_witness :
  JsObj.get "s5" (users two_rooms) = Some (mkUser "bob" "s5") ∧
  inherited_key "bob" = false ∧
  forallb (λ k, negb (inherited_key k)) (rooms two_rooms).*1 = true ∧
  JsObj.get "s5" (typingUsers two_rooms) = Some "bob" ∧
  JsObj.get "s5" (typingUsers (disconnect "s5" two_rooms).1) = None ∧
  in_room "s5" "a" two_rooms = true ∧
  in_room "s5" "a" (disconnect "s5" two_rooms).1 = false.
Proof.
  split; [reflexivity|]. split; [reflexivity|]. split; [reflexivity|].
  split; [reflexivity|].
  destruct (disconnect_cleans two_rooms "s5" (mkUser "bob" "s5"))
    as (_ & Hty & _ & _ & _ & Hrooms & _); [reflexivity | reflexivity |].
  split; [exact Hty|]. split; [reflexivity|]. by apply Hrooms.
Defined.

(** Where [rooms] holds the function a join of "constructor" left there,
    the loop of [disconnect] ends on it with a [TypeError]: a room created
    before it is cleaned, a room created after it keeps the connection,
    and no event is emitted. *)
Lemma disconnect_after_inherited_room :
  let st := (run [("s5", EJoinRoom (Some "early"));
                  ("s5", EJoinRoom (Some "constructor"));
                  ("s5", EJoinRoom (Some "late"))] lobby).1 in
  let res := disconnect "s5" st in
  JsObj.get "s5" (users res.1) = None ∧
  in_room "s5" "early" res.1 = false ∧
  in_room "s5" "late" res.1 = true ∧
  res.2 = [Throw].
Proof. cbv zeta. repeat split; vm_compute; reflexivity. Qed.

Lemma disconnect_unregistered st socket :
  JsObj.get socket (users st) = None →
  disconnect socket st = (set_io (sio_disconnect socket) st, [Log]).
Proof.
  intros Hu. unfold disconnect, seq, modify, reading. cbn [fst snd users set_io].
  by rewrite Hu.
Qed.

(** X3: a connection that joined a room without ever registering is not
    removed from the [rooms] directory when it disconnects: the directory
    keeps the id of the dead connection, while socket.io has dropped it. *)
Theorem unregistered_join_outlives_disconnect st socket r :
  JsObj.get socket (users st) = None →
  r ≠ EmptyString →
  inherited_key r = false →
  let st' := (run [(socket, EJoinRoom (Some r)); (socket, EDisconnect)] st).1 in
  in_room socket r st' = true ∧
  in_sio_room socket r st' = false ∧
  (socket ∉ sio_sids (io st')).
Proof.
  intros Hu Hr Hk st'. subst st'. unfold run.
  rewrite !for_each_cons_fst. cbn [for_each foldr skip fst snd handle].
  assert (Hu' : JsObj.get socket (users (join_room socket (Some r) st).1) = None).
  { rewrite join_room_run, Hk by done. exact Hu. }
  rewrite (disconnect_unregistered _ _ Hu'). cbn [fst].
  split; [|split].
  - unfold in_room. cbn [rooms set_io]. fold (in_room socket r (join_room socket (Some r) st).1).
    rewrite join_room_in_room, Hk by done. by rewrite bool_decide_true.
  - unfold in_sio_room, sio_members. cbn [io set_io sio_disconnect sio_rooms].
    rewrite lookup_fmap. apply bool_decide_eq_false.
    destruct (sio_rooms _ !! r) as [s|]; simpl.
    + rewrite elem_of_difference, elem_of_singleton. tauto.
    + apply not_elem_of_empty.
  - cbn [io set_io sio_disconnect sio_sids].
    rewrite elem_of_difference, elem_of_singleton. tauto.
Qed.

Lemma unregistered_join_outlives_disconnect_witness :
  JsObj.get "s9" (users lobby) = None ∧
  "general" ≠ EmptyString ∧
  inherited_key "general" = false ∧
  in_room "s9" "general"
    (run [("s9", EJoinRoom (Some "general")); ("s9", EDisconnect)] lobby).1 = true.
Proof.
  split; [reflexivity|]. split; [done|]. split; [reflexivity|].
  destruct (unregistered_join_outlives_disconnect lobby "s9" "general")
    as (H & _); [reflexivity | done | reflexivity | exact H].
Defined.

Lemma deliveries_emit_all c ev (to : gset string) p tr :
  deliveries c ev (Emit to ev p :: tr) =
    (if bool_decide (c ∈ to) then [p] else []) ++ deliveries c ev tr.
Proof. cbn [deliveries]. rewrite String.eqb_refl. by destruct (bool_decide _). Qed.

(** X4: when [rooms] holds only Sets, the events of a disconnect
    ([user_left], [user_list] and [typing_users]) are written once to
    every connection that is still connected, and never to the connection
    that disconnected.  When [rooms] holds a key named like a property of
    [Object.prototype], the handler throws in its loop over [rooms] and
    writes nothing to any connection. *)
Theorem disconnect_notifies_the_others st socket u :
  JsObj.get socket (users st) = Some u →
  inherited_key (username u) = false →
  let res := disconnect socket st in
  let sets_only := forallb (λ k, negb (inherited_key k)) (rooms st).*1 in
  ∀ c,
    deliveries c "user_left" res.2 =
      (if sets_only && bool_decide (c ∈ sio_sids (io st) ∖ {[socket]})
       then [PUser (username u) socket] else []) ∧
    deliveries c "user_list" res.2 =
      (if sets_only && bool_decide (c ∈ sio_sids (io st) ∖ {[socket]})
       then [PUserList (getUserList res.1)] else []) ∧
    deliveries c "typing_users" res.2 =
      (if sets_only && bool_decide (c ∈ sio_sids (io st) ∖ {[socket]})
       then [PTypingUsers (JsObj.values (typingUsers res.1))] else []) ∧
    (sets_only = false → ∀ ev, deliveries c ev res.2 = []).
Proof.
  intros Hu Hk res sets_only c. subst res sets_only.
  rewrite (disconnect_run _ _ _ Hu Hk).
  cbv zeta. cbn [fst snd]. rewrite disconnect_loop_completed.
  destruct (forallb _ _); [|done].
  set (st' := set_rooms _ _).
  assert (Hsids : sio_sids (io st') = sio_sids (io st) ∖ {[socket]}) by done.
  rewrite Hsids. cbn [deliveries String.eqb Ascii.eqb Bool.eqb andb].
  by destruct (bool_decide _).
Qed.

Lemma disconnect_notifies_the_others_witness :
  JsObj.get "s5" (users lobby) = Some (mkUser "bob" "s5") ∧
  inherited_key "bob" = false ∧
  deliveries "s5" "user_left" (disconnect "s5" lobby).2 = [] ∧
  deliveries "s1" "user_left" (disconnect "s5" lobby).2 = [PUser "bob" "s5"].
Proof.
  split; [reflexivity|]. split; [reflexivity|].
  pose proof (disconnect_notifies_the_others lobby "s5" (mkUser "bob" "s5")
                eq_refl eq_refl) as H.
  split.
  - destruct (H "s5") as (-> & _). reflexivity.
  - destruct (H "s1") as (-> & _). reflexivity.
Defined.

(** ** Registering *)

Lemma registerUser_run st socket name :
  inherited_key name = false →
  registerUser socket name st =
    let st' :=
      set_rooms (λ rs, <["global" := {[socket]} ∪ default ∅ (rs !! "global")]> rs)
        (set_io (sio_join socket "global")
           (set_socketsByUser
              (λ sbu, <[name := js_set_add socket (default ∅ (sbu !! name))]> sbu)
              (set_users (JsObj.set socket (mkUser name socket)) st))) in
    (st', [Emit (sio_sids (io st)) "user_joined" (PUser name socket);
           Emit (sio_sids (io st)) "user_list" (PUserList (getUserList st'));
           Emit (sio_sids (io st)) "notification" (PNotifJoin name);
           Log]).
Proof. intros Hk. unfold registerUser. by rewrite Hk. Qed.

Lemma user_join_run st socket name :
  name ≠ EmptyString →
  user_join socket (Some name) st = registerUser socket name st.
Proof. intros Hn. unfold user_join. by rewrite truthy_Some. Qed.

(** X5: a connection that registers again under another name stays listed
    under the old name: [socketsByUser] keeps it there while the session
    carries the new name, and even after the connection has disconnected. *)
Theorem reregistration_keeps_old_name st socket n1 n2 :
  n1 ≠ EmptyString → n2 ≠ EmptyString → n1 ≠ n2 →
  inherited_key n1 = false → inherited_key n2 = false →
  let st2 := (run [(socket, EUserJoin (Some n1)); (socket, EUserJoin (Some n2))] st).1 in
  let st3 := (disconnect socket st2).1 in
  JsObj.get socket (users st2) = Some (mkUser n2 socket) ∧
  socket ∈ default ∅ (socketsByUser st2 !! n1) ∧
  socket ∈ default ∅ (socketsByUser st2 !! n2) ∧
  JsObj.get socket (users st3) = None ∧
  socket ∈ default ∅ (socketsByUser st3 !! n1) ∧
  (socket ∉ default ∅ (socketsByUser st3 !! n2)).
Proof.
  intros Hn1 Hn2 Hne Hk1 Hk2 st2 st3.
  assert (Hst2 : st2 = (registerUser socket n2 (registerUser socket n1 st).1).1).
  { subst st2. unfold run. rewrite !for_each_cons_fst.
    cbn [for_each foldr skip fst snd handle]. by rewrite !user_join_run. }
  assert (Hu2 : JsObj.get socket (users st2) = Some (mkUser n2 socket)).
  { rewrite Hst2, (registerUser_run _ _ n2 Hk2). simpl. apply JsObj_get_set_eq. }
  assert (H1 : socket ∈ default ∅ (socketsByUser st2 !! n1)).
  { rewrite Hst2, (registerUser_run _ _ n2 Hk2), (registerUser_run _ _ n1 Hk1). simpl.
    rewrite lookup_insert_ne, lookup_insert_eq by done. simpl.
    apply elem_of_js_set_add. by left. }
  assert (H2 : socket ∈ default ∅ (socketsByUser st2 !! n2)).
  { rewrite Hst2, (registerUser_run _ _ n2 Hk2). simpl.
    rewrite lookup_insert_eq. simpl. apply elem_of_js_set_add. by left. }
  split; [done|]. split; [done|]. split; [done|].
  subst st3. rewrite (disconnect_run _ _ _ Hu2 Hk2). cbv zeta.
  cbn [fst username users socketsByUser set_io set_socketsByUser set_users
       set_typingUsers set_rooms].
  split; [apply JsObj_get_delete_eq|].
  rewrite !elem_of_after_disconnect. split; [split; [done|] | tauto].
  intros [? _]. done.
Qed.

Lemma reregistration_keeps_old_name_witness :
  "alice" ≠ EmptyString ∧ "mallory" ≠ EmptyString ∧ "alice" ≠ "mallory" ∧
  inherited_key "alice" = false ∧ inherited_key "mallory" = false ∧
  "s9" ∈ default ∅ (socketsByUser
    (disconnect "s9"
       (run [("s9", EUserJoin (Some "alice")); ("s9", EUserJoin (Some "mallory"))]
            lobby).1).1 !! "alice").
Proof.
  split; [done|]. split; [done|]. split; [done|].
  split; [reflexivity|]. split; [reflexivity|].
  destruct (reregistration_keeps_old_name lobby "s9" "alice" "mallory")
    as (_ & _ & _ & _ & H & _); [done | done | done | reflexivity | reflexivity |].
  exact H.
Defined.

(** ** What the stores hold in every run *)

Lemma registerUser_state st socket name :
  (registerUser socket name st).1 =
    if inherited_key name then set_users (JsObj.set socket (mkUser name socket)) st
    else
      set_rooms (λ rs, <["global" := {[socket]} ∪ default ∅ (rs !! "global")]> rs)
        (set_io (sio_join socket "global")
           (set_socketsByUser
              (λ sbu, <[name := js_set_add socket (default ∅ (sbu !! name))]> sbu)
              (set_users (JsObj.set socket (mkUser name socket)) st))).
Proof. unfold registerUser. by destruct (inherited_key name). Qed.

Lemma on_connection_state st socket has_token token_user :
  (on_connection socket has_token token_user st).1 =
    if has_token && truthy token_user
    then (registerUser socket (default EmptyString token_user)
            (set_io (sio_connect socket) st)).1
    else set_io (sio_connect socket) st.
Proof.
  unfold on_connection. rewrite !seq_fst.
  destruct has_token; [|done]. cbn [when andb].
  by destruct (truthy token_user).
Qed.

Lemma user_join_state st socket name :
  (user_join socket name st).1 =
    if truthy name then (registerUser socket (default EmptyString name) st).1 else st.
Proof. unfold user_join. by destruct (truthy name). Qed.

Lemma join_room_state st socket roomId :
  (join_room socket roomId st).1 =
    if truthy roomId then
      let r := default EmptyString roomId in
      if inherited_key r then
        set_rooms (own_inherited r) (set_io (sio_join socket r) st)
      else set_rooms (λ rs, <[r := {[socket]} ∪ default ∅ (rs !! r)]> rs)
             (set_io (sio_join socket r) st)
    else st.
Proof.
  unfold join_room. destruct (truthy roomId); [|done].
  cbv zeta. by destruct (inherited_key _).
Qed.

Lemma leave_room_state st socket roomId :
  (leave_room socket roomId st).1 =
    if truthy roomId then
      let r := default EmptyString roomId in
      if inherited_key r then set_io (sio_leave socket r) st
      else set_rooms (alter (λ s, s ∖ {[socket]}) r) (set_io (sio_leave socket r) st)
    else st.
Proof.
  unfold leave_room. destruct (truthy roomId); [|done].
  cbv zeta. by destruct (inherited_key _).
Qed.

Lemma disconnect_state st socket :
  (disconnect socket st).1 =
    match JsObj.get socket (users st) with
    | None => set_io (sio_disconnect socket) st
    | Some u =>
        if inherited_key (username u) then set_io (sio_disconnect socket) st
        else
          set_rooms (λ rs, (delete_from_each socket (js_own_keys rs) rs).1)
            (set_typingUsers (JsObj.delete socket)
               (set_users (JsObj.delete socket)
                  (set_socketsByUser (λ sbu,
                     if bool_decide (sbu !! username u = Some ∅)
                     then delete (username u) sbu else sbu)
                     (set_socketsByUser (alter (js_set_delete socket) (username u))
                        (set_io (sio_disconnect socket) st)))))
    end.
Proof.
  rewrite disconnect_unfold. cbv zeta.
  destruct (JsObj.get socket (users st)) as [u|]; [|done].
  by destruct (inherited_key (username u)).
Qed.

(** The events that only touch the message collection. *)
Lemma message_events_keep_presence st socket e :
  match e with
  | ESendMessage _ _ _ | EPrivateMessage _ _ _ _ _ | EMessageRead _ _
  | EMessageReaction _ _ _ | ELoadOlder _ _ _ _ =>
      let st' := (handle socket e st).1 in
      users st' = users st ∧ socketsByUser st' = socketsByUser st ∧
      typingUsers st' = typingUsers st ∧ rooms st' = rooms st ∧ io st' = io st
  | _ => True
  end.
Proof.
  destruct e as [| | | | payload ack fr | to text fileUrl ack fr | | mid u
                 | mid reaction u | roomId beforeId limit ack | ]; try exact I;
    cbv zeta; cbn [handle].
  - destruct (JsObj.get socket (users st)) as [user|] eqn:Hu.
    + rewrite (send_message_run _ _ _ _ _ _ Hu). cbn [fst].
      rewrite cap_messages_run. destruct (2000 <? _); [|done].
      by destruct (messages _).
    + unfold send_message, reading. rewrite Hu. by destruct ack.
  - destruct (JsObj.get socket (users st)) as [from|] eqn:Hu.
    + destruct (inherited_key to) eqn:Hto.
      * by rewrite (private_message_throws _ _ _ _ _ _ _ _ Hu Hto).
      * by rewrite (private_message_run _ _ _ _ _ _ _ _ Hu Hto).
    + unfold private_message, reading. rewrite Hu. by destruct ack.
  - rewrite message_read_run. by destruct (js_find _ _).
  - rewrite message_reaction_run. destruct (js_find _ _); [|done].
    by destruct (inherited_key reaction).
  - by rewrite load_older_run.
Qed.

Import Reachable.

Lemma handle_sessions_indexed st socket e :
  sessions_indexed st → sessions_indexed (handle socket e st).1.
Proof.
  intros Hinv.
  assert (Hreg : ∀ st0 name, sessions_indexed st0 →
                   sessions_indexed (registerUser socket name st0).1).
  { intros st0 name H0 sid u. rewrite registerUser_state.
    destruct (inherited_key name) eqn:Hk; simpl.
    - destruct (decide (sid = socket)) as [->|Hne].
      + rewrite JsObj_get_set_eq. intros [= <-]. simpl. congruence.
      + rewrite JsObj_get_set_ne by done. apply H0.
    - destruct (decide (sid = socket)) as [->|Hne].
      + rewrite JsObj_get_set_eq. intros [= <-] _. simpl.
        rewrite lookup_insert_eq. simpl. apply elem_of_js_set_add. by left.
      + rewrite JsObj_get_set_ne by done. intros Hu Hku.
        destruct (decide (username u = name)) as [<-|Hn].
        * rewrite lookup_insert_eq. simpl. apply elem_of_js_set_add. right.
          by apply H0.
        * rewrite lookup_insert_ne by done. by apply H0. }
  pose proof (message_events_keep_presence st socket e) as Hframe.
  destruct e as [has_token token_user | name | roomId | roomId | | | roomId isTyping
                 | | | | ]; cbn [handle] in *;
    try (destruct Hframe as (Hu & Hs & _); unfold sessions_indexed;
         rewrite Hu, Hs; exact Hinv).
  - rewrite on_connection_state. destruct (_ && _); [by apply Hreg | done].
  - rewrite user_join_state. destruct (truthy name); [by apply Hreg | done].
  - rewrite join_room_state. destruct (truthy roomId); [|done].
    cbv zeta. by destruct (inherited_key _).
  - rewrite leave_room_state. destruct (truthy roomId); [|done].
    cbv zeta. by destruct (inherited_key _).
  - rewrite typing_run. by destruct (JsObj.get _ _).
  - rewrite disconnect_state.
    destruct (JsObj.get socket (users st)) as [u0|] eqn:Hu0; [|done].
    destruct (inherited_key (username u0)) eqn:Hk0; [done|].
    intros sid u. simpl.
    destruct (decide (sid = socket)) as [->|Hne];
      [by rewrite JsObj_get_delete_eq|].
    rewrite JsObj_get_delete_ne by done. intros Hu Hk.
    rewrite elem_of_after_disconnect. split; [by apply Hinv|].
    by intros [_ ?].
Qed.

Lemma handle_no_empty_user st socket e :
  no_empty_user st → no_empty_user (handle socket e st).1.
Proof.
  intros Hinv.
  assert (Hreg : ∀ st0 name, no_empty_user st0 →
                   no_empty_user (registerUser socket name st0).1).
  { intros st0 name H0 n s. rewrite registerUser_state.
    destruct (inherited_key name); simpl; [apply H0|].
    destruct (decide (n = name)) as [->|Hn].
    - rewrite lookup_insert_eq. intros [= <-] Hempty.
      assert (socket ∈ js_set_add socket (default ∅ (socketsByUser st0 !! name)))
        as Hin by (apply elem_of_js_set_add; by left).
      rewrite Hempty in Hin. by apply not_elem_of_nil in Hin.
    - rewrite lookup_insert_ne by done. apply H0. }
  pose proof (message_events_keep_presence st socket e) as Hframe.
  destruct e as [has_token token_user | name | roomId | roomId | | | roomId isTyping
                 | | | | ]; cbn [handle] in *;
    try (destruct Hframe as (_ & Hs & _); unfold no_empty_user;
         rewrite Hs; exact Hinv).
  - rewrite on_connection_state. destruct (_ && _); [by apply Hreg | done].
  - rewrite user_join_state. destruct (truthy name); [by apply Hreg | done].
  - rewrite join_room_state. destruct (truthy roomId); [|done].
    cbv zeta. by destruct (inherited_key _).
  - rewrite leave_room_state. destruct (truthy roomId); [|done].
    cbv zeta. by destruct (inherited_key _).
  - rewrite typing_run. by destruct (JsObj.get _ _).
  - rewrite disconnect_state.
    destruct (JsObj.get socket (users st)) as [u0|] eqn:Hu0; [|done].
    destruct (inherited_key (username u0)) eqn:Hk0; [done|].
    intros n s. simpl. case_bool_decide as Hempty.
    + destruct (decide (n = username u0)) as [->|Hn];
        [by rewrite lookup_delete_eq|].
      rewrite lookup_delete_ne, lookup_alter_ne by done. apply Hinv.
    + destruct (decide (n = username u0)) as [->|Hn].
      * intros Hs ->. by apply Hempty.
      * rewrite lookup_alter_ne by done. apply Hinv.
Qed.

Lemma run_invariant (P : State → Prop) :
  (∀ st socket e, P st → P (handle socket e st).1) →
  ∀ evs st, P st → P (run evs st).1.
Proof.
  intros Hstep evs. induction evs as [|[socket e] evs IH]; intros st Hst; [done|].
  unfold run. rewrite for_each_cons_fst. apply IH. by apply Hstep.
Qed.

(** X6: in every run of the server, every session whose user name is an
    ordinary key is listed under that name in [socketsByUser]. *)
Theorem sessions_always_indexed evs :
  sessions_indexed (run evs init).1.
Proof. apply run_invariant; [apply handle_sessions_indexed|]. by intros sid u. Qed.

(** X7: in every run of the server, a user name is kept in
    [socketsByUser] only with at least one connection. *)
Theorem no_user_without_connection evs :
  no_empty_user (run evs init).1.
Proof. apply run_invariant; [apply handle_no_empty_user|]. by intros n s. Qed.

Lemma elem_of_room_added (m : gmap string (gset string)) r r' (c socket : string) :
  c ∈ default ∅ (<[r := {[socket]} ∪ default ∅ (m !! r)]> m !! r') ↔
  (r' = r ∧ c = socket) ∨ c ∈ default ∅ (m !! r').
Proof.
  destruct (decide (r' = r)) as [->|Hne].
  - rewrite lookup_insert_eq. simpl.
    rewrite elem_of_union, elem_of_singleton. tauto.
  - rewrite lookup_insert_ne by done. tauto.
Qed.

Lemma elem_of_room_removed (m : gmap string (gset string)) r r' (c socket : string) :
  c ∈ default ∅ (alter (λ s, s ∖ {[socket]}) r m !! r') ↔
  c ∈ default ∅ (m !! r') ∧ ¬ (r' = r ∧ c = socket).
Proof.
  destruct (decide (r' = r)) as [->|Hne].
  - rewrite lookup_alter_eq. destruct (m !! r) as [s|]; simpl.
    + rewrite elem_of_difference, elem_of_singleton. tauto.
    + rewrite elem_of_empty. tauto.
  - rewrite lookup_alter_ne by done. tauto.
Qed.

Lemma rooms_elem_of_room_added (rs : Rooms) r r' (c socket : string) :
  inherited_key r = false →
  c ∈ default ∅ (<[r := {[socket]} ∪ default ∅ (rs !! r)]> rs !! r') ↔
  (r' = r ∧ c = socket) ∨ c ∈ default ∅ (rs !! r').
Proof.
  intros Hr. destruct (decide (r' = r)) as [->|Hne].
  - rewrite rooms_lookup_insert_eq by done. simpl.
    rewrite elem_of_union, elem_of_singleton. tauto.
  - rewrite rooms_lookup_insert_ne by done. tauto.
Qed.

Lemma rooms_elem_of_room_removed (rs : Rooms) r r' (c socket : string) :
  c ∈ default ∅ (alter (λ s, s ∖ {[socket]}) r rs !! r') ↔
  c ∈ default ∅ (rs !! r') ∧ ¬ (r' = r ∧ c = socket).
Proof.
  destruct (decide (r' = r)) as [->|Hne].
  - rewrite rooms_lookup_alter_eq. destruct (rs !! r) as [s|]; simpl.
    + rewrite elem_of_difference, elem_of_singleton. tauto.
    + rewrite elem_of_empty. tauto.
  - rewrite rooms_lookup_alter_ne by done. tauto.
Qed.

Lemma elem_of_sio_join c r sid room a :
  c ∈ sio_members r (sio_join sid room a) ↔
  (r = room ∧ c = sid) ∨ c ∈ sio_members r a.
Proof. unfold sio_join, sio_members. cbn [sio_rooms]. apply elem_of_room_added. Qed.

Lemma elem_of_sio_leave c r sid room a :
  c ∈ sio_members r (sio_leave sid room a) ↔
  c ∈ sio_members r a ∧ ¬ (r = room ∧ c = sid).
Proof. unfold sio_leave, sio_members. cbn [sio_rooms]. apply elem_of_room_removed. Qed.

Lemma elem_of_sio_disconnect c r sid a :
  c ∈ sio_members r (sio_disconnect sid a) ↔ c ∈ sio_members r a ∧ c ≠ sid.
Proof.
  unfold sio_disconnect, sio_members. cbn [sio_rooms]. rewrite lookup_fmap.
  destruct (sio_rooms a !! r) as [s|]; cbn.
  - rewrite elem_of_difference, elem_of_singleton. tauto.
  - rewrite elem_of_empty. tauto.
Qed.

Lemma elem_of_sio_connect c r sid a :
  c ∈ sio_members r (sio_connect sid a) ↔ (r = sid ∧ c = sid) ∨ c ∈ sio_members r a.
Proof. unfold sio_connect. by rewrite elem_of_sio_join. Qed.

Lemma handle_rooms_mirror st socket e :
  rooms_mirror st → rooms_mirror (handle socket e st).1.
Proof.
  intros Hinv.
  assert (Hreg : ∀ st0 name, rooms_mirror st0 →
                   rooms_mirror (registerUser socket name st0).1).
  { intros st0 name H0 r c. rewrite registerUser_state.
    destruct (inherited_key name); simpl; [apply H0|].
    rewrite elem_of_sio_join, rooms_elem_of_room_added by done.
    intros [[-> ->]|Hin]; [tauto|]. destruct (H0 _ _ Hin); tauto. }
  assert (Hcon : rooms_mirror (set_io (sio_connect socket) st)).
  { intros r c. simpl. rewrite elem_of_sio_connect.
    intros [[-> ->]|Hin]; [tauto|]. by apply Hinv. }
  pose proof (message_events_keep_presence st socket e) as Hframe.
  destruct e as [has_token token_user | name | roomId | roomId | | | roomId isTyping
                 | | | | ]; cbn [handle] in *;
    try (destruct Hframe as (_ & _ & _ & Hr & Hio); unfold rooms_mirror;
         rewrite Hr, Hio; exact Hinv).
  - rewrite on_connection_state. destruct (_ && _); [by apply Hreg | done].
  - rewrite user_join_state. destruct (truthy name); [by apply Hreg | done].
  - rewrite join_room_state. destruct (truthy roomId); [|done].
    cbv zeta. intros r c. destruct (inherited_key _) eqn:Hk; simpl.
    + rewrite elem_of_sio_join, rooms_lookup_own_inherited by done.
      intros [[-> ->]|Hin]; [tauto|]. by apply Hinv.
    + rewrite elem_of_sio_join, rooms_elem_of_room_added by done.
      intros [[-> ->]|Hin]; [tauto|]. destruct (Hinv _ _ Hin); tauto.
  - rewrite leave_room_state. destruct (truthy roomId); [|done].
    cbv zeta. intros r c. destruct (inherited_key _) eqn:Hk; simpl.
    + rewrite elem_of_sio_leave. intros [Hin _]. by apply Hinv.
    + rewrite elem_of_sio_leave, rooms_elem_of_room_removed.
      intros [Hin Hne]. destruct (Hinv _ _ Hin); tauto.
  - rewrite typing_run. by destruct (JsObj.get _ _).
  - rewrite disconnect_state.
    assert (Hdis : rooms_mirror (set_io (sio_disconnect socket) st)).
    { intros r c. simpl. rewrite elem_of_sio_disconnect. intros [Hin _].
      by apply Hinv. }
    destruct (JsObj.get socket (users st)) as [u0|] eqn:Hu0; [|done].
    destruct (inherited_key (username u0)) eqn:Hk0; [done|].
    intros r c. simpl. rewrite elem_of_sio_disconnect.
    intros [Hin Hne]. destruct (Hinv _ _ Hin) as [Hr|]; [|tauto].
    left. by apply delete_from_each_others.
Qed.

Lemma handle_typing_registered st socket e :
  typing_registered st → typing_registered (handle socket e st).1.
Proof.
  intros Hinv.
  assert (Hreg : ∀ st0 name, typing_registered st0 →
                   typing_registered (registerUser socket name st0).1).
  { intros st0 name H0 sid n. rewrite registerUser_state.
    destruct (inherited_key name); simpl; intros Hn;
      (destruct (decide (sid = socket)) as [->|Hne];
       [rewrite JsObj_get_set_eq; by eexists
       |rewrite JsObj_get_set_ne by done; by eapply H0]). }
  pose proof (message_events_keep_presence st socket e) as Hframe.
  destruct e as [has_token token_user | name | roomId | roomId | | | roomId isTyping
                 | | | | ]; cbn [handle] in *;
    try (destruct Hframe as (Hu & _ & Ht & _); unfold typing_registered;
         rewrite Hu, Ht; exact Hinv).
  - rewrite on_connection_state. destruct (_ && _); [by apply Hreg | done].
  - rewrite user_join_state. destruct (truthy name); [by apply Hreg | done].
  - rewrite join_room_state. destruct (truthy roomId); [|done].
    cbv zeta. by destruct (inherited_key _).
  - rewrite leave_room_state. destruct (truthy roomId); [|done].
    cbv zeta. by destruct (inherited_key _).
  - rewrite typing_run.
    destruct (JsObj.get socket (users st)) as [u0|] eqn:Hu0; [|done].
    intros sid n. cbn [fst]. destruct isTyping; simpl.
    + destruct (decide (sid = socket)) as [->|Hne]; [by rewrite Hu0; eexists|].
      rewrite JsObj_get_set_ne by done. apply Hinv.
    + destruct (decide (sid = socket)) as [->|Hne]; [by rewrite Hu0; eexists|].
      rewrite JsObj_get_delete_ne by done. apply Hinv.
  - rewrite disconnect_state.
    destruct (JsObj.get socket (users st)) as [u0|] eqn:Hu0; [|done].
    destruct (inherited_key (username u0)) eqn:Hk0; [done|].
    intros sid n. simpl.
    destruct (decide (sid = socket)) as [->|Hne];
      [by rewrite JsObj_get_delete_eq|].
    rewrite !JsObj_get_delete_ne by done. apply Hinv.
Qed.

Lemma handle_keeps_room_keys st socket e r :
  is_Some (rooms st !! r) → is_Some (rooms (handle socket e st).1 !! r).
Proof.
  intros Hr.
  assert (Hreg : ∀ st0 name, is_Some (rooms st0 !! r) →
                   is_Some (rooms (registerUser socket name st0).1 !! r)).
  { intros st0 name H0. rewrite registerUser_state.
    destruct (inherited_key name); simpl; [done|].
    destruct (decide (r = "global")) as [->|Hne].
    - rewrite rooms_lookup_insert_eq by done. by eexists.
    - by rewrite rooms_lookup_insert_ne. }
  pose proof (message_events_keep_presence st socket e) as Hframe.
  destruct e as [has_token token_user | name | roomId | roomId | | | roomId isTyping
                 | | | | ]; cbn [handle] in *;
    try (destruct Hframe as (_ & _ & _ & Hrs & _); rewrite Hrs; exact Hr).
  - rewrite on_connection_state. destruct (_ && _); [by apply Hreg | done].
  - rewrite user_join_state. destruct (truthy name); [by apply Hreg | done].
  - rewrite join_room_state. destruct (truthy roomId); [|done].
    cbv zeta. destruct (inherited_key _) eqn:Hk; simpl;
      [by rewrite rooms_lookup_own_inherited|].
    destruct (decide (r = default EmptyString roomId)) as [->|Hne].
    + rewrite rooms_lookup_insert_eq by done. by eexists.
    + by rewrite rooms_lookup_insert_ne.
  - rewrite leave_room_state. destruct (truthy roomId); [|done].
    cbv zeta. destruct (inherited_key _); simpl; [done|].
    destruct (decide (r = default EmptyString roomId)) as [->|Hne].
    + rewrite rooms_lookup_alter_eq. destruct Hr as [s ->]. by eexists.
    + by rewrite rooms_lookup_alter_ne.
  - rewrite typing_run. by destruct (JsObj.get _ _).
  - rewrite disconnect_state.
    destruct (JsObj.get socket (users st)) as [u0|] eqn:Hu0; [|done].
    destruct (inherited_key (username u0)) eqn:Hk0; [done|].
    simpl. by apply delete_from_each_is_Some.
Qed.

Lemma run_app evs1 evs2 st :
  (run (evs1 ++ evs2) st).1 = (run evs2 (run evs1 st).1).1.
Proof.
  revert st. induction evs1 as [|[socket e] evs1 IH]; intros st; [done|].
  cbn [app]. unfold run in *. by rewrite !for_each_cons_fst, IH.
Qed.

(** X8: in every run of the server, a connection that is in a socket.io
    room, other than the room named by its own id, is recorded in the
    [rooms] directory under that room (unless the room is named like an
    [Object.prototype] property, where [join_room] throws before
    recording it). *)
Theorem socket_rooms_are_recorded evs :
  rooms_mirror (run evs init).1.
Proof.
  apply run_invariant; [apply handle_rooms_mirror|].
  intros r c. unfold sio_members. simpl. rewrite lookup_empty. simpl.
  by rewrite elem_of_empty.
Qed.

(** X9: in every run of the server, every entry of [typingUsers] belongs
    to a connection that is registered in [users]. *)
Theorem typing_entries_are_registered evs :
  typing_registered (run evs init).1.
Proof. apply run_invariant; [apply handle_typing_registered|]. by intros sid n. Qed.

(** X10: the [rooms] directory never loses a key: a room that exists
    after some events still exists, possibly empty, after any further
    events. *)
Theorem room_keys_are_kept evs more r :
  is_Some (rooms (run evs init).1 !! r) →
  is_Some (rooms (run (evs ++ more) init).1 !! r).
Proof.
  intros Hr. rewrite run_app.
  apply (run_invariant (λ st, is_Some (rooms st !! r))); [|done].
  intros st socket e. apply handle_keeps_room_keys.
Qed.

Lemma room_keys_are_kept_witness :
  is_Some (rooms (run [("s1", EJoinRoom (Some "general"))] init).1 !! "general") ∧
  is_Some (rooms (run ([("s1", EJoinRoom (Some "general"))] ++
                       [("s1", ELeaveRoom (Some "general")); ("s1", EDisconnect)])
                   init).1 !! "general").
Proof.
  assert (H : is_Some (rooms (run [("s1", EJoinRoom (Some "general"))] init).1
                         !! "general")) by (vm_compute; by eexists).
  split; [exact H|].
  exact (room_keys_are_kept [("s1", EJoinRoom (Some "general"))]
           [("s1", ELeaveRoom (Some "general")); ("s1", EDisconnect)] "general" H).
Defined.

(** X11: the room [global] exists in [rooms] in every run, so
    [rooms.global.add] in [registerUser] always finds its set. *)
Theorem global_room_always_exists evs :
  is_Some (rooms (run evs init).1 !! "global").
Proof.
  apply (run_invariant (λ st, is_Some (rooms st !! "global"))).
  - intros st socket e. apply handle_keeps_room_keys.
  - by exists ∅.
Qed.

(** ** Paging through a room *)

(** X12: successive pages join up.  When a reader holds the newest [k]
    messages of a room and asks for the page before the oldest one it
    holds, the page put in front of what it holds gives the newest
    [k + limit] messages of the room: nothing is skipped and nothing
    comes twice. *)
Theorem load_older_pages_are_contiguous ms roomId limit (k : nat) :
  0 < limit →
  let hist := room_history (param_default roomId "global") ms in
  NoDup (Message.id <$> hist) →
  Forall (λ m, Message.id m ≠ EmptyString) hist →
  (0 < k ≤ length hist)%nat →
  ∃ oldest rest,
    drop (length hist - k) hist = oldest :: rest ∧
    older_page ms roomId (Some (Message.id oldest)) (Some limit) ++ oldest :: rest =
      drop (length hist - (k + Z.to_nat limit)) hist.
Proof.
  intros Hl hist Hnd Hne Hk.
  unfold older_page. cbv zeta.
  change (param_default (Some limit) 20) with limit.
  change (room_history (param_default roomId "global") ms) with hist.
  assert (Ha : (length hist - (k + Z.to_nat limit) =
                length hist - k - Z.to_nat limit)%nat) by lia.
  rewrite Ha. clear Ha.
  assert (Hlen : length (take (length hist - k) hist) = (length hist - k)%nat)
    by (rewrite length_take; lia).
  assert (Hdl : length (drop (length hist - k) hist) = k)
    by (rewrite length_drop; lia).
  pose proof (take_drop (length hist - k) hist) as Hh.
  revert Hlen Hdl Hh.
  generalize (length hist - k)%nat as a.
  intros a Hlen Hdl Hh.
  destruct (drop a hist) as [|oldest rest] eqn:Hd; [simpl in Hdl; lia|].
  exists oldest, rest. split; [done|].
  clearbody hist. remember (take a hist) as older eqn:Ho. clear Ho Hd Hdl.
  subst hist.
  assert (Hold : Forall (λ y, has_id (Message.id oldest) y = false) older).
  { rewrite fmap_app in Hnd. apply NoDup_app in Hnd as (_ & Hdis & _).
    apply Forall_forall. intros y Hy. unfold has_id.
    apply bool_decide_eq_false. intros Heq.
    apply (Hdis (Message.id y)); [by apply list_elem_of_fmap_2|].
    rewrite fmap_cons, Heq. apply list_elem_of_here. }
  assert (Hid : Message.id oldest ≠ EmptyString).
  { rewrite Forall_app, Forall_cons in Hne. tauto. }
  rewrite (truthy_Some _ Hid).
  change (default EmptyString (Some (Message.id oldest))) with (Message.id oldest).
  rewrite (js_findIndex_first _ older oldest rest Hold)
    by (unfold has_id; by apply bool_decide_eq_true).
  destruct (Z.eqb_spec (Z.of_nat (length older)) (-1)) as [Hcontra|_]; [lia|].
  rewrite (js_slice_before older oldest rest limit Hl).
  rewrite Hlen. rewrite drop_app_le by lia. done.
Qed.

Lemma load_older_pages_are_contiguous_witness :
  let ms := messages (run [("s5", ESendMessage hi false fr1);
                           ("s1", ESendMessage hi false (mkFresh "m3" "t3"))] general).1 in
  let hist := room_history "general" ms in
  0 < 1 ∧
  ∃ oldest rest,
    drop (length hist - 2) hist = oldest :: rest ∧
    older_page ms (Some "general") (Some (Message.id oldest)) (Some 1) ++ oldest :: rest =
      drop (length hist - (2 + Z.to_nat 1)) hist.
Proof.
  intros ms hist. split; [lia|].
  apply (load_older_pages_are_contiguous ms (Some "general") 1 2).
  - lia.
  - apply (bool_decide_unpack _). vm_compute. exact I.
  - apply (bool_decide_unpack _). vm_compute. exact I.
  - vm_compute. lia.
Defined.

(** ** The size of the collection *)

Lemma js_mutate_found_length {A} (p : A → bool) f l :
  length (js_mutate_found p f l) = length l.
Proof. induction l as [|x l IH]; [done|]. simpl. destruct (p x); simpl; congruence. Qed.

Lemma handle_keeps_cap st socket e :
  match e with EPrivateMessage _ _ _ _ _ => False | _ => True end →
  (length (messages st) ≤ 2000)%nat →
  (length (messages (handle socket e st).1) ≤ 2000)%nat.
Proof.
  intros He Hst.
  destruct e as [has_token token_user | name | roomId | roomId | payload ack fr |
                 | roomId isTyping | mid u | mid reaction u
                 | roomId beforeId limit ack | ]; cbn [handle]; try done.
  - rewrite on_connection_state. destruct (_ && _); [|done].
    by rewrite registerUser_messages.
  - rewrite user_join_state. destruct (truthy name); [|done].
    by rewrite registerUser_messages.
  - rewrite join_room_state. destruct (truthy roomId); [|done].
    cbv zeta. by destruct (inherited_key _).
  - rewrite leave_room_state. destruct (truthy roomId); [|done].
    cbv zeta. by destruct (inherited_key _).
  - rewrite send_message_messages. destruct (JsObj.get _ _); [|done].
    cbv zeta. destruct (Z.ltb_spec 2000 (Z.of_nat (length (messages st ++ [
      createMessage fr (p_text payload) (username u) socket
        (Some (or_else (p_roomId payload) "global")) None None
        (or_null (p_fileUrl payload))])))) as [Hgt|Hle].
    + rewrite length_drop, length_app. simpl. lia.
    + lia.
  - rewrite typing_run. by destruct (JsObj.get _ _).
  - rewrite message_read_run. destruct (js_find _ _); [|done].
    simpl. by rewrite js_mutate_found_length.
  - rewrite message_reaction_run. destruct (js_find _ _); [|done].
    destruct (inherited_key reaction); [done|].
    simpl. by rewrite js_mutate_found_length.
  - by rewrite load_older_run.
  - rewrite disconnect_state. destruct (JsObj.get _ _) as [u0|]; [|done].
    by destruct (inherited_key _).
Qed.

(** X13: as long as no private message is sent, the collection never
    holds more than 2000 messages.  (Private messages are pushed without
    the cap.) *)
Theorem room_messages_stay_capped evs :
  Forall (λ se : string * Event,
            match se.2 with EPrivateMessage _ _ _ _ _ => False | _ => True end) evs →
  (length (messages (run evs init).1) ≤ 2000)%nat.
Proof.
  assert (H : ∀ st, (length (messages st) ≤ 2000)%nat →
            Forall (λ se : string * Event,
              match se.2 with EPrivateMessage _ _ _ _ _ => False | _ => True end) evs →
            (length (messages (run evs st).1) ≤ 2000)%nat).
  { induction evs as [|[socket e] evs IH]; intros st Hst Hevs; [done|].
    apply Forall_cons in Hevs as [He Hevs].
    unfold run. rewrite for_each_cons_fst. apply IH; [|done].
    by apply handle_keeps_cap. }
  intros Hevs. apply H; [simpl; lia | done].
Qed.

Lemma room_messages_stay_capped_witness :
  (length (messages (run [("s1", EUserJoin (Some "alice"));
                          ("s1", ESendMessage hi true fr0);
                          ("s1", EMessageRead (fresh_id fr0) "bob")] init).1)
   ≤ 2000)%nat.
Proof.
  apply room_messages_stay_capped. repeat constructor.
Defined.

(** ** What a handler refuses or ignores *)

(** X14: [message_read] and [message_reaction] with an id that no stored
    message has change nothing and emit nothing. *)
Theorem unknown_message_id_is_ignored st socket mid reaction u :
  Forall (λ m, Message.id m ≠ mid) (messages st) →
  handle socket (EMessageRead mid u) st = (st, []) ∧
  handle socket (EMessageReaction mid reaction u) st = (st, []).
Proof.
  intros Hno. cbn [handle]. rewrite message_read_run, message_reaction_run.
  destruct (js_find (has_id mid) (messages st)) as [m|] eqn:Hfind; [|done].
  pose proof (js_find_Forall _ _ _ _ Hno Hfind) as Hne.
  apply js_find_Some in Hfind. unfold has_id in Hfind.
  by apply bool_decide_eq_true in Hfind.
Qed.

Lemma unknown_message_id_is_ignored_witness :
  handle "s5" (EMessageRead "no-such-id" "bob") general = (general, []) ∧
  handle "s5" (EMessageReaction "no-such-id" "like" "bob") general = (general, []).
Proof.
  apply unknown_message_id_is_ignored.
  apply (bool_decide_unpack _). vm_compute. exact I.
Defined.

(** X15: a connection that has not registered cannot send or type:
    [send_message], [private_message] and [typing] from it leave every
    store as it is and write nothing to any connection; the only thing
    the handler does is answer the acknowledgement, if one was passed,
    with [not_authenticated]. *)
Theorem unregistered_cannot_send_or_type st socket e :
  JsObj.get socket (users st) = None →
  match e with
  | ESendMessage _ _ _ | EPrivateMessage _ _ _ _ _ | ETyping _ _ => True
  | _ => False
  end →
  (handle socket e st).1 = st ∧
  ((handle socket e st).2 = [] ∨
   (handle socket e st).2 = [Ack socket (AckError "not_authenticated")]) ∧
  ∀ c ev, deliveries c ev (handle socket e st).2 = [].
Proof.
  intros Hu He.
  destruct e as [| | | | payload ack fr | to text fileUrl ack fr | roomId isTyping
                 | | | | ]; try done; cbn [handle].
  - unfold send_message, reading. rewrite Hu. destruct ack; simpl; tauto.
  - unfold private_message, reading. rewrite Hu. destruct ack; simpl; tauto.
  - rewrite typing_run, Hu. simpl. tauto.
Qed.

Lemma unregistered_cannot_send_or_type_witness :
  (handle "s9" (ESendMessage hi true fr1) lobby).1 = lobby ∧
  ((handle "s9" (ESendMessage hi true fr1) lobby).2 = [] ∨
   (handle "s9" (ESendMessage hi true fr1) lobby).2 =
     [Ack "s9" (AckError "not_authenticated")]) ∧
  ∀ c ev, deliveries c ev (handle "s9" (ESendMessage hi true fr1) lobby).2 = [].
Proof.
  apply (unregistered_cannot_send_or_type lobby "s9" (ESendMessage hi true fr1));
    [reflexivity | exact I].
Defined.

(** ** Announcing a registration *)

Lemma JsObj_get_elem_of {V} k (v : V) o : JsObj.get k o = Some v → (k, v) ∈ o.
Proof.
  induction o as [|[k0 v0] o IH]; simpl; [done|].
  case_bool_decide as Hk.
  - intros [= ->]. subst k0. apply list_elem_of_here.
  - intros Hget. by apply list_elem_of_further, IH.
Qed.

(** X16: a registration under an ordinary name writes [user_joined],
    [user_list] and the join notification once to every connected socket
    and to no other, and the user list it sends names the new user. *)
Theorem registration_is_announced st socket name :
  inherited_key name = false →
  let st' := (registerUser socket name st).1 in
  let tr := (registerUser socket name st).2 in
  name ∈ username <$> getUserList st' ∧
  ∀ c,
    deliveries c "user_joined" tr =
      (if bool_decide (c ∈ sio_sids (io st)) then [PUser name socket] else []) ∧
    deliveries c "user_list" tr =
      (if bool_decide (c ∈ sio_sids (io st)) then [PUserList (getUserList st')] else []) ∧
    deliveries c "notification" tr =
      (if bool_decide (c ∈ sio_sids (io st)) then [PNotifJoin name] else []).
Proof.
  intros Hk. rewrite (registerUser_run _ _ _ Hk). cbv zeta. cbn [fst snd]. split.
  - unfold getUserList.
    destruct (first_session_of
                (JsObj.set socket (mkUser name socket) (users st)) name)
      as (pre & sid & u & post & Heq & Hname & Hpre).
    { exists socket, (mkUser name socket). split; [|done].
      apply JsObj_get_elem_of, JsObj_get_set_eq. }
    apply list_elem_of_fmap. exists u. split; [done|].
    apply getUserList_from_spec. split; [apply not_elem_of_nil|].
    exists pre, sid, post. split; [exact Heq|]. by rewrite Hname.
  - intros c. cbn [deliveries String.eqb Ascii.eqb Bool.eqb andb].
    by destruct (bool_decide (c ∈ sio_sids (io st))).
Qed.

Lemma registration_is_announced_witness :
  inherited_key "dave" = false ∧
  "dave" ∈ username <$> getUserList (registerUser "s9" "dave" lobby).1.
Proof.
  split; [reflexivity|].
  destruct (registration_is_announced lobby "s9" "dave" eq_refl) as [H _].
  exact H.
Defined.

(** ** The events the handlers emit *)


Lemma seq_snd {St Act} (c1 c2 : Cmd St Act) st :
  (seq c1 c2 st).2 = (c1 st).2 ++ (c2 (c1 st).1).2.
Proof. unfold seq. destruct (c1 st) as [st1 t1]. simpl. by destruct (c2 st1). Qed.

Lemma emits_known_app t1 t2 : emits_known t1 → emits_known t2 → emits_known (t1 ++ t2).
Proof. apply Forall_app_2. Qed.

Lemma emits_known_to (f : string → gset string) ev p (l : list string) :
  ev ∈ emitted_events → emits_known ((λ sid, Emit (f sid) ev p) <$> l).
Proof. intros Hev. apply Forall_fmap, Forall_true. intros sid. exact Hev. Qed.

Local Ltac known_event := apply (bool_decide_unpack _); vm_compute; exact I.

Local Ltac known_trace :=
  repeat first
    [ apply Forall_nil_2
    | apply Forall_cons_2; [first [exact I | known_event]|]
    | apply emits_known_app
    | apply emits_known_to; known_event ].

Lemma registerUser_emits_known st socket name :
  emits_known (registerUser socket name st).2.
Proof.
  destruct (inherited_key name) eqn:Hk.
  - unfold registerUser. rewrite Hk. unfold emits_known. cbn. known_trace.
  - rewrite (registerUser_run _ _ _ Hk). unfold emits_known. cbn. known_trace.
Qed.

Lemma handle_emits_known st socket e : emits_known (handle socket e st).2.
Proof.
  destruct e as [has_token token_user | name | roomId | roomId | payload ack fr
                 | to text fileUrl ack fr | roomId isTyping | mid u
                 | mid reaction u | roomId beforeId limit ack | ]; cbn [handle].
  - unfold on_connection.
    destruct has_token; [destruct (truthy token_user) eqn:Ht|].
    + rewrite !seq_snd. cbn [when modify tell fst snd app].
      apply Forall_cons_2; [exact I | apply registerUser_emits_known].
    + unfold emits_known. cbn. known_trace.
    + unfold emits_known. cbn. known_trace.
  - unfold user_join. destruct (truthy name); [apply registerUser_emits_known|].
    apply Forall_nil_2.
  - unfold join_room. destruct (truthy roomId); [|apply Forall_nil_2].
    cbv zeta. unfold emits_known, seq, modify. cbn.
    destruct (inherited_key _); cbn; known_trace.
  - unfold leave_room. destruct (truthy roomId); [|apply Forall_nil_2].
    cbv zeta. unfold emits_known, seq, modify. cbn.
    destruct (inherited_key _); cbn; known_trace.
  - destruct (JsObj.get socket (users st)) as [user|] eqn:Hu.
    + rewrite (send_message_run _ _ _ _ _ _ Hu). cbn [snd].
      rewrite cap_messages_run. unfold emits_known.
      destruct (2000 <? _); [destruct (messages _)|]; destruct ack; cbn; known_trace.
    + unfold send_message, reading. rewrite Hu. unfold emits_known.
      destruct ack; cbn; known_trace.
  - destruct (JsObj.get socket (users st)) as [from|] eqn:Hu.
    + destruct (inherited_key to) eqn:Hto.
      * rewrite (private_message_throws _ _ _ _ _ _ _ _ Hu Hto). cbn. known_trace.
      * rewrite (private_message_run _ _ _ _ _ _ _ _ Hu Hto). cbn [snd].
        apply Forall_cons_2; [exact I|]. apply emits_known_app.
        { apply emits_known_to. known_event. }
        apply Forall_cons_2; [known_event|]. apply emits_known_app.
        { destruct ack; known_trace. }
        apply emits_known_to. known_event.
    + unfold private_message, reading. rewrite Hu. unfold emits_known.
      destruct ack; cbn; known_trace.
  - rewrite typing_run. destruct (JsObj.get _ _); cbn; known_trace.
  - rewrite message_read_run. destruct (js_find _ _) as [m|]; [|apply Forall_nil_2].
    cbn [snd]. destruct (Message.isPrivate m).
    + destruct (inherited_key _); [known_trace|]. apply emits_known_to. known_event.
    + known_trace.
  - rewrite message_reaction_run.
    destruct (js_find _ _) as [m|]; [|apply Forall_nil_2].
    destruct (inherited_key reaction); [cbn; known_trace|]. cbn [snd].
    destruct (Message.isPrivate m).
    + destruct (_ || _); [known_trace|]. apply emits_known_to. known_event.
    + known_trace.
  - rewrite load_older_run. destruct ack; cbn; known_trace.
  - destruct (JsObj.get socket (users st)) as [u0|] eqn:Hu0.
    + destruct (inherited_key (username u0)) eqn:Hk0.
      * unfold disconnect, seq, modify, reading. cbn [fst snd users set_io].
        rewrite Hu0, Hk0. cbn. known_trace.
      * rewrite (disconnect_run _ _ _ Hu0 Hk0). cbv zeta. cbn [snd].
        destruct (delete_from_each _ _ _).2; known_trace.
    + rewrite (disconnect_unregistered _ _ Hu0). cbn. known_trace.
Qed.

Lemma run_cons_snd socket e evs st :
  (run ((socket, e) :: evs) st).2 =
    (handle socket e st).2 ++ (run evs (handle socket e st).1).2.
Proof.
  unfold run.
  change (for_each ((socket, e) :: evs) (λ se, handle se.1 se.2))
    with (seq (handle socket e) (for_each evs (λ se, handle se.1 se.2))).
  apply seq_snd.
Qed.

(** X17: whatever events arrive, the handlers of socketHandlers.js emit
    only the eleven events [user_joined], [user_list], [notification],
    [room_joined], [room_left], [receive_message], [private_message],
    [typing_users], [message_read], [message_reaction] and [user_left];
    no other event is ever written to a connection. *)
Theorem handlers_emit_only_their_events evs st :
  emits_known (run evs st).2.
Proof.
  revert st. induction evs as [|[socket e] evs IH]; intros st; [apply Forall_nil_2|].
  rewrite run_cons_snd. apply emits_known_app; [apply handle_emits_known | apply IH].
Qed.

(** * Further properties of server/server.js *)

Import Server ServerPresence.

Lemma or_else_nonempty o d : d ≠ EmptyString → or_else o d ≠ EmptyString.
Proof.
  intros Hd. unfold or_else. destruct o as [s|]; simpl; [|done].
  case_bool_decide; done.
Qed.

Lemma or_else_Some_nonempty r d : r ≠ EmptyString → or_else (Some r) d = r.
Proof. intros Hr. unfold or_else. by rewrite truthy_Some. Qed.

Lemma server_join_room_run st socket roomName :
  join_room socket roomName st =
    let room := or_else roomName "global" in
    let st' :=
      set_users (λ us, match JsObj.get socket us with
                       | Some u => JsObj.set socket (with_room room u) us
                       | None => us
                       end)
        (set_currentRoom (<[socket := room]>)
           (set_io (sio_join socket room) st)) in
    (st', [Log; Emit (sio_members room (io st')) "user_list"
                  (PRoomUsers (filter (λ u, Server.room u = room)
                                 (JsObj.values (users st'))))]).
Proof. reflexivity. Qed.

(** X18: [join_room] of server.js only ever adds: the connection is put
    in the room, which becomes its current room and the room of its
    session, and nobody, the connection included, is taken out of any
    room joined before. *)
Theorem server_join_room_never_leaves st socket roomName :
  let room := or_else roomName "global" in
  let st' := (join_room socket roomName st).1 in
  room ≠ EmptyString ∧
  currentRoom st' !! socket = Some room ∧
  socket ∈ sio_members room (io st') ∧
  (∀ r c, c ∈ sio_members r (io st) → c ∈ sio_members r (io st')) ∧
  JsObj.get socket (users st') = with_room room <$> JsObj.get socket (users st).
Proof.
  intros room st'. subst st'. rewrite server_join_room_run. cbv zeta. cbn [fst].
  fold room. split; [by apply or_else_nonempty|]. simpl.
  split; [by rewrite lookup_insert_eq|].
  split; [apply elem_of_sio_join; tauto|].
  split; [intros r c Hc; apply elem_of_sio_join; tauto|].
  destruct (JsObj.get socket (users st)) as [u|] eqn:Hu; simpl.
  - apply JsObj_get_set_eq.
  - exact Hu.
Qed.

Lemma server_send_message_stored st socket msgData now i :
  let room := or_else (currentRoom st !! socket) (or_else (d_room msgData) "global") in
  ∃ saved,
    doc_id saved = i ∧ doc_room saved = room ∧
    Server.send_message socket msgData now (Some i) st =
      (set_store (λ ds, ds ++ [saved]) st,
       [Server.Persisted saved;
        Server.Emit (sio_members room (io st)) "receive_message" (Server.PDoc saved)]).
Proof. intros room. eexists. split; [|split]; [| |reflexivity]; reflexivity. Qed.

Lemma server_deliveries_receive c saved (to : gset string) :
  server_deliveries c "receive_message"
    [Server.Persisted saved; Server.Emit to "receive_message" (Server.PDoc saved)] =
  if bool_decide (c ∈ to) then [Server.PDoc saved] else [].
Proof. cbn. by destruct (bool_decide _). Qed.

(** X19: after [join_room], a [send_message] of the connection is stored
    under the joined room and fanned out to it, the sender included,
    whatever room the message data names. *)
Theorem server_send_goes_to_the_joined_room st socket roomName msgData now i :
  let room := or_else roomName "global" in
  let st1 := (join_room socket roomName st).1 in
  let res := Server.send_message socket msgData now (Some i) st1 in
  ∃ saved,
    store res.1 = store st ++ [saved] ∧
    doc_id saved = i ∧ doc_room saved = room ∧
    ∀ c, server_deliveries c "receive_message" res.2 =
         if bool_decide (c = socket ∨ c ∈ sio_members room (io st))
         then [Server.PDoc saved] else [].
Proof.
  intros room st1 res.
  assert (Hroom : or_else (currentRoom st1 !! socket)
                    (or_else (d_room msgData) "global") = room).
  { subst st1. rewrite server_join_room_run. cbv zeta. cbn [fst]. simpl.
    rewrite lookup_insert_eq. apply or_else_Some_nonempty.
    by apply or_else_nonempty. }
  destruct (server_send_message_stored st1 socket msgData now i)
    as (saved & Hid & Hr & Hrun).
  exists saved. subst res. rewrite Hrun. cbn [fst snd]. rewrite Hroom in Hr.
  split; [by subst st1; rewrite server_join_room_run|].
  split; [done|]. split; [done|].
  intros c. rewrite Hroom, server_deliveries_receive.
  rewrite (bool_decide_ext (c ∈ sio_members room (io st1))
             (c = socket ∨ c ∈ sio_members room (io st))); [done|].
  subst st1. rewrite server_join_room_run. cbv zeta. cbn [fst].
  simpl. fold room. rewrite elem_of_sio_join. tauto.
Qed.

Lemma server_connection_state st socket update_ok online :
  io (connection socket update_ok online st).1 = sio_connect socket (io st) ∧
  currentRoom (connection socket update_ok online st).1 = currentRoom st ∧
  store (connection socket update_ok online st).1 = store st.
Proof.
  unfold connection. rewrite !seq_fst. unfold reading, modify, tell. cbn [fst].
  simpl. destruct (socket_user st !! socket) as [su|]; [|done].
  destruct (bool_decide _); [|done]. rewrite seq_fst. simpl.
  destruct update_ok; [destruct online|]; done.
Qed.

(** X20: the [connection] listener of server.js registers the session
    under room [global] but joins no room.  A connection that has joined
    no room and sends a message therefore has it stored and fanned out
    to the room named in the message data (or [global]) without getting
    a copy itself. *)
Theorem server_sender_outside_the_room_gets_no_copy
    st socket update_ok online msgData now i :
  (∀ r, socket ∉ sio_members r (io st)) →
  currentRoom st !! socket = None →
  or_else (d_room msgData) "global" ≠ socket →
  let room := or_else (d_room msgData) "global" in
  let st1 := (connection socket update_ok online st).1 in
  let res := Server.send_message socket msgData now (Some i) st1 in
  (∃ saved, store res.1 = store st ++ [saved] ∧ doc_room saved = room ∧
            ∀ c, server_deliveries c "receive_message" res.2 =
                 if bool_decide (c ∈ sio_members room (io st))
                 then [Server.PDoc saved] else []) ∧
  server_deliveries socket "receive_message" res.2 = [].
Proof.
  intros Hfresh Hcur Hne room st1 res.
  destruct (server_connection_state st socket update_ok online) as (Hio & Hcr & Hst).
  fold st1 in Hio, Hcr, Hst.
  assert (Hroom : or_else (currentRoom st1 !! socket)
                    (or_else (d_room msgData) "global") = room).
  { rewrite Hcr, Hcur. done. }
  destruct (server_send_message_stored st1 socket msgData now i)
    as (saved & Hid & Hr & Hrun).
  rewrite Hroom in Hr, Hrun.
  assert (Hmem : ∀ c, c ∈ sio_members room (io st1) ↔ c ∈ sio_members room (io st)).
  { intros c. rewrite Hio. unfold sio_connect. rewrite elem_of_sio_join.
    unfold sio_members. cbn [sio_rooms]. split; [|tauto].
    intros [[Heq _]|?]; [by subst room|done]. }
  subst res. rewrite Hrun. cbn [fst snd]. split.
  - exists saved. split; [simpl; by rewrite Hst|]. split; [done|].
    intros c. rewrite server_deliveries_receive.
    by rewrite (bool_decide_ext _ _ (Hmem c)).
  - rewrite server_deliveries_receive, bool_decide_false; [done|].
    rewrite Hmem. apply Hfresh.
Qed.

Lemma server_sender_outside_the_room_gets_no_copy_witness :
  let st := Server.mkState [] {["s1" := mkClerk "user_1" "alice"]} ∅ []
              (sio_join "s2" "global" (sio_connect "s2" (mkAdapter ∅ ∅))) in
  server_deliveries "s1" "receive_message"
    (Server.send_message "s1" hello "2023-11-14T22:13:20.000Z" (Some "m1")
       (connection "s1" true (Some []) st).1).2 = [].
Proof.
  intros st.
  apply (server_sender_outside_the_room_gets_no_copy st "s1" true (Some []) hello
           "2023-11-14T22:13:20.000Z" "m1").
  - intros r. unfold sio_members. simpl.
    destruct (decide (r = "global")) as [->|Hg].
    + vm_compute. intros H. by apply (bool_decide_pack _) in H.
    + rewrite lookup_insert_ne by done.
      destruct (decide (r = "s2")) as [->|Hs].
      * vm_compute. intros H. by apply (bool_decide_pack _) in H.
      * rewrite lookup_insert_ne by done. rewrite lookup_empty. simpl.
        apply not_elem_of_empty.
  - reflexivity.
  - by vm_compute.
Defined.

Lemma server_add_reaction_run st socket mid type :
  add_reaction socket mid type true true st =
    match js_find (has_id mid) (store st) with
    | None => (st, [])
    | Some msg =>
        let u := userId socket st in
        let msg' := with_reactions (reactions msg ++ [(u, type)]) msg in
        (set_store (js_mutate_found (has_id mid) (λ _, msg')) st,
         [Saved msg'; Emit (sio_sids (io st)) "reaction_added" (PReactionAdded mid type u)])
    end.
Proof.
  unfold add_reaction, reading. simpl. by destruct (js_find _ _) as [msg|].
Qed.

Lemma server_find_after_save mid (msg msg' : Doc) ds :
  js_find (has_id mid) ds = Some msg → doc_id msg' = doc_id msg →
  js_find (has_id mid) (js_mutate_found (has_id mid) (λ _, msg') ds) = Some msg'.
Proof.
  intros Hfind Hid. induction ds as [|d ds IH]; [done|]. simpl in *.
  destruct (has_id mid d) eqn:Hd; simpl.
  - injection Hfind as ->. unfold has_id in *. by rewrite Hid, Hd.
  - rewrite Hd. by apply IH.
Qed.

(** X21: [add_reaction] of server.js never toggles: every call on a
    stored message appends one [(user, type)] entry, so the same
    reaction sent twice by the same connection is recorded twice, and
    [reaction_added] is broadcast to every connection each time. *)
Theorem server_add_reaction_appends st socket mid type msg :
  js_find (has_id mid) (store st) = Some msg →
  let u := userId socket st in
  let r1 := add_reaction socket mid type true true st in
  let r2 := add_reaction socket mid type true true r1.1 in
  js_find (has_id mid) (store r1.1) =
    Some (with_reactions (reactions msg ++ [(u, type)]) msg) ∧
  js_find (has_id mid) (store r2.1) =
    Some (with_reactions (reactions msg ++ [(u, type); (u, type)]) msg) ∧
  ∀ c, deliveries c "reaction_added" (r1.2 ++ r2.2) =
       if bool_decide (c ∈ sio_sids (io st))
       then [PReactionAdded mid type u; PReactionAdded mid type u] else [].
Proof.
  intros Hfind u r1 r2.
  assert (H1 : r1 = (set_store (js_mutate_found (has_id mid)
                       (λ _, with_reactions (reactions msg ++ [(u, type)]) msg)) st,
                     [Saved (with_reactions (reactions msg ++ [(u, type)]) msg);
                      Emit (sio_sids (io st)) "reaction_added"
                        (PReactionAdded mid type u)])).
  { subst r1. by rewrite server_add_reaction_run, Hfind. }
  assert (Hf1 : js_find (has_id mid) (store r1.1) =
                Some (with_reactions (reactions msg ++ [(u, type)]) msg)).
  { rewrite H1. simpl. by apply (server_find_after_save mid msg). }
  split; [exact Hf1|].
  assert (H2 : r2 = (set_store (js_mutate_found (has_id mid)
                       (λ _, with_reactions (reactions msg ++ [(u, type); (u, type)]) msg))
                       r1.1,
                     [Saved (with_reactions (reactions msg ++ [(u, type); (u, type)]) msg);
                      Emit (sio_sids (io st)) "reaction_added"
                        (PReactionAdded mid type u)])).
  { subst r2. rewrite server_add_reaction_run, Hf1. cbv zeta.
    rewrite H1. simpl. by rewrite <- app_assoc. }
  split.
  - rewrite H2. cbn [fst store set_store].
    by apply (server_find_after_save mid _ _ _ Hf1).
  - intros c. rewrite H1, H2. cbn.
    by destruct (bool_decide (c ∈ sio_sids (io st))).
Qed.

Lemma server_add_reaction_appends_witness :
  let d := mkDoc "m1" "hello" "alice" "s1" None "global" false None
             "2023-11-14T22:13:20.000Z" [] [] in
  let st := set_store (λ _, [d]) guest in
  js_find (has_id "m1")
    (store (add_reaction "s1" "m1" "like" true true
              (add_reaction "s1" "m1" "like" true true st).1).1) =
    Some (with_reactions [("s1", "like"); ("s1", "like")] d).
Proof.
  intros d st.
  destruct (server_add_reaction_appends st "s1" "m1" "like" d eq_refl) as (_ & H & _).
  exact H.
Defined.

(** X22: when the message is unknown or a store call fails,
    [add_reaction] changes nothing and writes to no connection. *)
Theorem server_add_reaction_failure st socket mid type find_ok save_ok :
  find_ok = false ∨ save_ok = false ∨
    Forall (λ d, doc_id d ≠ mid) (store st) →
  (add_reaction socket mid type find_ok save_ok st).1 = st ∧
  ∀ c ev, deliveries c ev (add_reaction socket mid type find_ok save_ok st).2 = [].
Proof.
  intros Hfail. unfold add_reaction.
  destruct find_ok; [|done]. unfold reading. simpl.
  destruct (js_find (has_id mid) (store st)) as [msg|] eqn:Hfind; [|done].
  destruct save_ok; [|done].
  destruct Hfail as [?|[?|Hno]]; [done|done|].
  pose proof (js_find_Forall _ _ _ _ Hno Hfind) as Hne.
  apply js_find_Some in Hfind. unfold has_id in Hfind.
  by apply bool_decide_eq_true in Hfind.
Qed.

Lemma server_add_reaction_failure_witness :
  (add_reaction "s1" "m1" "like" true true guest).1 = guest ∧
  ∀ c ev, deliveries c ev (add_reaction "s1" "m1" "like" true true guest).2 = [].
Proof.
  apply server_add_reaction_failure. right. right. constructor.
Defined.

Lemma server_disconnect_run st socket update_ok online :
  disconnect socket update_ok online st =
    let st1 := set_io (sio_disconnect socket) st in
    match JsObj.get socket (users st) with
    | None => (st1, [Log])
    | Some user =>
        (set_users (JsObj.delete socket) st1,
         (if update_ok
          then [Emit (sio_members (or_else (Some (Server.room user)) "global") (io st1))
                  "user_left" (PUserLeft user)]
          else [StoreFailed; LogError]) ++
         match online with
         | Some l => [Emit (sio_sids (io st1)) "user_list" (POnline l); Log]
         | None => [StoreFailed; Unhandled]
         end)
    end.
Proof.
  unfold disconnect, seq, modify, reading. cbn [fst snd users set_io].
  destruct (JsObj.get socket (users st)) as [user|]; [|done].
  destruct update_ok, online; reflexivity.
Qed.

(** X23: the [disconnect] listener of server.js forgets the session
    whatever the user store does: [users] loses the entry of the
    connection, and only that one, even when [findOneAndUpdate] or
    [find] throws; nothing is written to the connection that left;
    [user_left] is emitted only if the update succeeded and
    [user_list] only if the query did. *)
Theorem server_disconnect_forgets_the_session st socket update_ok online :
  let res := disconnect socket update_ok online st in
  JsObj.get socket (users res.1) = None ∧
  (∀ sid, sid ≠ socket → JsObj.get sid (users res.1) = JsObj.get sid (users st)) ∧
  (∀ ev, deliveries socket ev res.2 = []) ∧
  (∀ c, deliveries c "user_left" res.2 =
        match JsObj.get socket (users st) with
        | Some user =>
            if update_ok &&
               bool_decide (c ∈ sio_members (or_else (Some (Server.room user)) "global")
                                  (io st) ∧ c ≠ socket)
            then [PUserLeft user] else []
        | None => []
        end) ∧
  (∀ c, deliveries c "user_list" res.2 =
        match JsObj.get socket (users st), online with
        | Some _, Some l =>
            if bool_decide (c ∈ sio_sids (io st) ∧ c ≠ socket) then [POnline l] else []
        | _, _ => []
        end).
Proof.
  intros res. subst res. rewrite server_disconnect_run. cbv zeta.
  destruct (JsObj.get socket (users st)) as [user|] eqn:Hu.
  2:{ cbn. rewrite Hu. repeat split; done. }
  assert (Hsock : ∀ r, bool_decide (socket ∈ sio_members r (sio_disconnect socket (io st)))
                       = false).
  { intros r. apply bool_decide_eq_false. rewrite elem_of_sio_disconnect. tauto. }
  assert (Hsids : bool_decide (socket ∈ sio_sids (io st) ∖ {[socket]}) = false).
  { apply bool_decide_eq_false. rewrite elem_of_difference, elem_of_singleton. tauto. }
  assert (Hmem : ∀ c r, bool_decide (c ∈ sio_members r (io st) ∧ c ≠ socket) =
                        bool_decide (c ∈ sio_members r (sio_disconnect socket (io st)))).
  { intros c r. apply bool_decide_ext. by rewrite elem_of_sio_disconnect. }
  assert (Hall : ∀ c, bool_decide (c ∈ sio_sids (io st) ∧ c ≠ socket) =
                      bool_decide (c ∈ sio_sids (io st) ∖ {[socket]})).
  { intros c. apply bool_decide_ext.
    rewrite elem_of_difference, elem_of_singleton. tauto. }
  cbn [fst snd users set_users set_io io].
  split; [apply JsObj_get_delete_eq|].
  split; [intros sid Hne; by apply JsObj_get_delete_ne|].
  split; [|split].
  - intros ev. destruct update_ok, online as [l|];
      cbn [app deliveries sio_disconnect sio_sids];
      rewrite ?Hsock, ?Hsids, ?andb_false_r; done.
  - intros c. rewrite Hmem.
    destruct update_ok, online as [l|]; cbn;
      repeat (destruct (bool_decide _)); done.
  - intros c. rewrite Hall.
    destruct update_ok, online as [l|]; cbn;
      repeat (destruct (bool_decide _)); done.
Qed.

Lemma server_typing_run st socket isTyping :
  typing socket isTyping st =
    (st, match typing_user socket st with
         | None => []
         | Some name =>
             let to := sio_members (or_else (currentRoom st !! socket) "global") (io st)
                         ∖ {[socket]} in
             if isTyping
             then [Emit to "typing_users_update" (PTypingUpdate socket name)]
             else [Emit to "typing_users_cleared" (PTypingCleared socket)]
         end).
Proof.
  unfold typing, reading. cbv zeta. destruct (typing_user socket st); [|done].
  by destruct isTyping.
Qed.

(** X24: the typing indicator of server.js keeps no state and is never
    sent back to the connection that types; when the user of the
    connection is known, every other member of its current room (or of
    [global], if it has joined none) gets the event exactly once. *)
Theorem server_typing_skips_the_sender st socket isTyping :
  let res := typing socket isTyping st in
  let ev := if isTyping then "typing_users_update" else "typing_users_cleared" in
  res.1 = st ∧
  (∀ e, deliveries socket e res.2 = []) ∧
  ∀ c, deliveries c ev res.2 =
       match typing_user socket st with
       | Some name =>
           if bool_decide (c ∈ sio_members (or_else (currentRoom st !! socket) "global")
                                 (io st) ∧ c ≠ socket)
           then [if isTyping then PTypingUpdate socket name else PTypingCleared socket]
           else []
       | None => []
       end.
Proof.
  intros res ev. subst res ev. rewrite server_typing_run. cbn [fst snd].
  split; [done|].
  destruct (typing_user socket st) as [name|]; [|done]. cbv zeta.
  assert (Hself : ∀ (S : gset string), bool_decide (socket ∈ S ∖ {[socket]}) = false).
  { intros S. apply bool_decide_eq_false.
    rewrite elem_of_difference, elem_of_singleton. tauto. }
  assert (Hmem : ∀ c (S : gset string), bool_decide (c ∈ S ∖ {[socket]}) =
                                        bool_decide (c ∈ S ∧ c ≠ socket)).
  { intros c S. apply bool_decide_ext.
    rewrite elem_of_difference, elem_of_singleton. tauto. }
  split.
  - intros e. destruct isTyping; cbn [deliveries]; rewrite Hself, andb_false_r; done.
  - intros c. rewrite <- Hmem.
    destruct isTyping; cbn; by destruct (bool_decide _).
Qed.

(** * client/src/socket/socket.js *)

Lemma handleTyping_elem_of u b prev v :
  v ∈ Client.handleTyping u b prev ↔
  if decide (v = u) then b = true else v ∈ prev.
Proof.
  unfold Client.handleTyping. destruct b.
  - case_bool_decide as Hin.
    + destruct (decide (v = u)) as [->|]; tauto.
    + rewrite elem_of_app, list_elem_of_singleton.
      destruct (decide (v = u)) as [->|]; tauto.
  - rewrite list_elem_of_filter.
    destruct (decide (v = u)) as [->|]; [|tauto].
    split; [tauto | done].
Qed.

Lemma handleTyping_NoDup u b prev :
  NoDup prev → NoDup (Client.handleTyping u b prev).
Proof.
  intros Hnd. unfold Client.handleTyping. destruct b.
  - case_bool_decide as Hin; [done|].
    apply NoDup_app. split; [done|]. split; [|apply NoDup_singleton].
    intros x Hx ->%list_elem_of_singleton. done.
  - by apply NoDup_filter.
Qed.

(** X25: the typing list of the client, updated by [handleTyping] from
    the empty list, never shows a name twice, and shows a name exactly
    when the last update for that name said it is typing. *)
Theorem client_typing_list (evs : list (string * bool)) :
  let shown := foldl (λ prev e, Client.handleTyping e.1 e.2 prev) [] evs in
  NoDup shown ∧
  ∀ u, u ∈ shown ↔
       snd <$> last (filter (λ e, e.1 = u) evs) = Some true.
Proof.
  cbv zeta.
  assert (H : ∀ init,
    NoDup init →
    NoDup (foldl (λ prev e, Client.handleTyping e.1 e.2 prev) init evs) ∧
    ∀ u, u ∈ foldl (λ prev e, Client.handleTyping e.1 e.2 prev) init evs ↔
         match snd <$> last (filter (λ e, e.1 = u) evs) with
         | Some b => b = true
         | None => u ∈ init
         end).
  { induction evs as [|[n b] evs IH] using rev_ind; intros init Hinit.
    - split; [done|]. intros u. done.
    - rewrite foldl_app. cbn [foldl fst snd].
      destruct (IH init Hinit) as [Hnd Hiff].
      split; [by apply handleTyping_NoDup|].
      intros u. rewrite handleTyping_elem_of, filter_app.
      destruct (decide (u = n)) as [->|Hne].
      + rewrite filter_cons_True by done. rewrite filter_nil, last_snoc. simpl.
        destruct b; split; tauto || done.
      + rewrite filter_cons_False by (simpl; congruence).
        rewrite filter_nil, app_nil_r. apply Hiff. }
  destruct (H [] (NoDup_nil_2)) as [Hnd Hiff]. split; [done|].
  intros u. rewrite Hiff.
  destruct (snd <$> last (filter (λ e, e.1 = u) evs)) as [b|].
  - split; [by intros -> | by intros [= ->]].
  - split; [by intros ?%elem_of_nil | done].
Qed.
